(** * Scheduling core of the provider app: availability search and booking

    A shallow embedding of the scheduling logic found in
    [src/pages/schedule/SchedulePage.tsx], [src/pages/schedule/FindPane.tsx],
    [src/components/schedule/BookAppointmentForm.tsx] and
    [src/utils/scheduling.ts], followed by the properties the specification
    states about it.

    Conventions.
    - An instant is the millisecond time value of a valid JavaScript [Date],
      an integer, so [Date] comparison with [<] is [Z.ltb] on time values.
    - A FHIR resource is a record of the fields the code reads or writes; an
      optional field that is absent ([undefined]) is [None].
    - Objects that the code mutates in place live in a store indexed by
      object reference.
    - A component is a record of its props, its state and the closures of
      its effects; an event handler is a function on that record, and the
      calls it makes to its collaborators are kept in order. *)

From stdpp Require Import base list sorting gmap strings pretty.
From Stdlib Require Import ZArith Lia.

#[local] Open Scope Z_scope.

(** ** FHIR data *)

Module Fhir.

Record Identifier := mkIdentifier {
  use : option string;
  system : option string;
  value : option string;
}.

Record Coding := mkCoding {
  coding_system : option string;
  coding_code : option string;
}.

Record CodeableConcept := mkCodeableConcept {
  coding : option (list Coding);
  text : option string;
}.

(** [Slot], [Appointment] and [Patient] objects as they exist at run time:
    the discriminating [resourceType] string and the fields the scheduling
    code touches. *)
Record Resource := mkResource {
  resourceType : string;
  id : option string;
  identifier : option (list Identifier);
  status : option string;
  start : option string;
  end_ : option string;
}.

(** [Bundle<T>]: [R] is the type of what an entry holds, a resource value
    or a reference to a resource object. *)
Record BundleEntry (R : Type) := mkBundleEntry {
  resource : option R;
}.
Arguments mkBundleEntry {R} _.
Arguments resource {R} _.

Record Bundle (R : Type) := mkBundle {
  entry : option (list (BundleEntry R));
}.
Arguments mkBundle {R} _.
Arguments entry {R} _.

(** An extension nested inside a [SchedulingParameters] extension: a url and,
    when present, a [valueCodeableConcept]. *)
Record SubExtension := mkSubExtension {
  sub_url : string;
  valueCodeableConcept : option CodeableConcept;
}.

(** A top-level extension of a schedule with its nested extensions. *)
Record Extension := mkExtension {
  url : string;
  extension : option (list SubExtension);
}.

Record Schedule := mkSchedule {
  schedule_id : string;
  schedule_extension : option (list Extension);
}.

#[global] Instance Identifier_eq_dec : EqDecision Identifier.
Proof. solve_decision. Defined.
#[global] Instance Coding_eq_dec : EqDecision Coding.
Proof. solve_decision. Defined.
#[global] Instance CodeableConcept_eq_dec : EqDecision CodeableConcept.
Proof. solve_decision. Defined.
#[global] Instance Resource_eq_dec : EqDecision Resource.
Proof. solve_decision. Defined.

End Fhir.

(** ** Interval Merge Engine ([src/utils/slots.ts]) *)

Module Slots.

(** A time interval [{start, end}] over instants. *)
Record Interval := mkInterval {
  start : Z;
  end_ : Z;
}.

#[global] Instance Interval_eq_dec : EqDecision Interval.
Proof. solve_decision. Defined.

(** The data-model invariant of a time interval. *)
Definition valid (i : Interval) : Prop := start i < end_ i.

#[global] Instance valid_dec i : Decision (valid i).
Proof. unfold valid. apply _. Defined.

(** Modelled from the spec: the ascending sort by start that opens
    [mergeOverlappingSlots]; the body of [src/utils/slots.ts] is not among
    the sources. Insertion keeps equal starts in input order, as
    [Array.prototype.sort] does. *)
Fixpoint insertByStart (x : Interval) (l : list Interval) : list Interval :=
  match l with
  | [] => [x]
  | y :: l' =>
      if start x <=? start y then x :: y :: l' else y :: insertByStart x l'
  end.

Definition sortByStart (l : list Interval) : list Interval :=
  foldr insertByStart [] l.

(** Modelled from the spec: the single scan of [mergeOverlappingSlots].
    The accumulator absorbs the next interval whenever
    [next.start <= accumulator.end], its end becoming the later of the two
    ends (a nested interval leaves the outer bound alone); otherwise the
    accumulator is flushed and the next interval starts a new one. *)
Fixpoint scan (acc : Interval) (rest : list Interval) : list Interval :=
  match rest with
  | [] => [acc]
  | next :: rest' =>
      if start next <=? end_ acc
      then scan (mkInterval (start acc) (Z.max (end_ acc) (end_ next))) rest'
      else acc :: scan next rest'
  end.

(** Modelled from the spec: [mergeOverlappingSlots] of
    [src/utils/slots.ts], whose body is not among the sources; section 4.1
    gives its contract and algorithm (sort by start, scan once, merge or
    flush). *)
Definition mergeOverlappingSlots (intervals : list Interval) : list Interval :=
  match sortByStart intervals with
  | [] => []
  | first :: rest => scan first rest
  end.

(** Instant [t] is covered by interval [i] (start inclusive, end
    exclusive). *)
Definition covers (i : Interval) (t : Z) : Prop := start i <= t < end_ i.

(** Instant [t] lies in the union of the intervals of [l]. *)
Definition covered (l : list Interval) (t : Z) : Prop :=
  ∃ i, i ∈ l ∧ covers i t.

(** [a] starts no later than [b]: the order of the sort. *)
Definition byStart (a b : Interval) : Prop := start a <= start b.

(** [a] ends strictly before [b] starts: the two neither overlap nor touch. *)
Definition apart (a b : Interval) : Prop := end_ a < start b.

End Slots.

(** ** Shared scheduling types ([src/types/scheduling.ts]) *)

Module Types.

(** [Range]: a pair of [Date]s, as time values. *)
Record Range := mkRange {
  start : Z;
  end_ : Z;
}.

#[global] Instance Range_eq_dec : EqDecision Range.
Proof. solve_decision. Defined.

End Types.

(** ** JavaScript [Date] objects *)

Module JsDate.

(** The largest time value a [Date] can hold, in milliseconds from the
    epoch. *)
Definition MAX_TIME : Z := 8640000000000000.

(** A [Date] object by its time value; [None] is an Invalid Date, whose time
    value is [NaN]. *)
Definition Date : Type := option Z.

(** [new Date(value)] for a number: the time value when it is in range, an
    Invalid Date otherwise. *)
Definition ofTime (value : Z) : Date :=
  if decide (- MAX_TIME <= value <= MAX_TIME) then Some value else None.

(** [new Date(d.getTime() + ms)]; [NaN + ms] is [NaN]. *)
Definition addMs (d : Date) (ms : Z) : Date :=
  match d with
  | Some t => ofTime (t + ms)
  | None => None
  end.

(** [a < b] on two Dates: the time values are compared, and a comparison
    with [NaN] is false. *)
Definition lt (a b : Date) : bool :=
  match a, b with
  | Some x, Some y => x <? y
  | _, _ => false
  end.

(** [d.toISOString()]: the text of the time value, or nothing when the call
    throws a [RangeError], as it does on an Invalid Date. *)
Definition toISOString (iso : Z → string) (d : Date) : option string :=
  match d with
  | Some t => Some (iso t)
  | None => None
  end.

End JsDate.

(** ** Object store and identifier source *)

Module Store.

(** An object reference. *)
Definition loc := nat.

(** The mutable part of the JavaScript world that the scheduling code acts
    on: the resource objects by reference, and how many identifiers
    [uuidv4] has handed out so far. [uuid n] is the n-th identifier it
    returns. *)
Record World := mkWorld {
  uuid : nat → string;
  drawn : nat;
  heap : gmap loc Fhir.Resource;
}.

(** [uuidv4()]: hands out the next identifier. *)
Definition uuidv4 (w : World) : string * World :=
  (uuid w (drawn w), mkWorld (uuid w) (S (drawn w)) (heap w)).

(** In-place mutation of the object behind reference [l]. *)
Definition mutate (f : Fhir.Resource → Fhir.Resource) (l : loc) (w : World) : World :=
  mkWorld (uuid w) (drawn w) (alter f l (heap w)).

End Store.

(** ** Scheduling utilities ([src/utils/scheduling.ts]) *)

Module Scheduling.
Import Fhir Store.

Definition SchedulingParametersURI : string :=
  "https://medplum.com/fhir/StructureDefinition/SchedulingParameters".
Definition MedplumSchedulingTransientIdentifierURI : string :=
  "https://medplum.com/fhir/scheduling-transient-id".

(** Modelled from the spec: [getIdentifier] of the client SDK
    ([@medplum/core]), which is not among the sources. It reads the value of
    the first identifier of the resource filed under the given system, or
    reports absence (section 4.2, [read]). *)
Definition getIdentifier (r : Resource) (sys : string) : option string :=
  ids ← identifier r;
  found ← list_find (λ i, system i = Some sys) ids;
  value found.2.

(** Modelled from the spec: [setIdentifier] of the client SDK
    ([@medplum/core]), which is not among the sources. It attaches the value
    as an identifier under the given system, tagged with the [use] passed
    along: the resource's identifier filed under that system is overwritten
    when there is one (last assignment wins), otherwise a new identifier is
    appended; no other field of the resource is touched (section 4.2,
    [assign]). *)
Definition setIdentifier (r : Resource) (sys val : string) (tag : option string)
  : Resource :=
  let ids := default [] (identifier r) in
  let ids' :=
    match list_find (λ i, system i = Some sys) ids with
    | Some (k, old) =>
        <[k := mkIdentifier (from_option Some (use old) tag) (Some sys) (Some val)]> ids
    | None => ids ++ [mkIdentifier tag (Some sys) (Some val)]
    end in
  mkResource (resourceType r) (id r) (Some ids') (status r)
             (Fhir.start r) (Fhir.end_ r).

(** Modelled from the spec: [getExtensionValue(ext, url)] of the client SDK,
    not among the sources: the value of the first extension nested in [ext]
    under [url], absent when there is none or it carries no value
    (section 6). *)
Definition getExtensionValue (ext : Extension) (u : string)
  : option CodeableConcept :=
  subs ← extension ext;
  found ← list_find (λ e, sub_url e = u) subs;
  valueCodeableConcept found.2.

(** [serviceTypesFromSchedulingParameters]. *)
Definition serviceTypesFromSchedulingParameters (schedule : Schedule)
  : list (option CodeableConcept) :=
  let extensions :=
    default [] (filter (λ ext, url ext = SchedulingParametersURI)
                  <$> schedule_extension schedule) in
  (λ ext, getExtensionValue ext "serviceType") <$> extensions.

End Scheduling.

(** The object [SchedulingTransientIdentifier] of
    [src/utils/scheduling.ts]; a resource argument is an object reference. *)
Module SchedulingTransientIdentifier.
Import Fhir Store Scheduling.

(** [set(resource)]: draws a uuid, then files it on the object. *)
Definition set (l : loc) (w : World) : World :=
  let '(token, w1) := uuidv4 w in
  mutate
    (λ r, setIdentifier r MedplumSchedulingTransientIdentifierURI token
            (Some "temp"))
    l w1.

(** [get(resource)]. *)
Definition get (l : loc) (w : World) : option string :=
  r ← heap w !! l;
  getIdentifier r MedplumSchedulingTransientIdentifierURI.

End SchedulingTransientIdentifier.

(** ** The availability search pane ([src/pages/schedule/FindPane.tsx]) *)

Module FindPane.
Import Fhir Store Scheduling Types.

Definition ONE_WEEK_MS : Z := 7 * 24 * 60 * 60 * 1000.

(** The [serviceType] state, of type [CodeableConcept | undefined | null]. *)
Inductive ServiceTypeState :=
| NoSelection                       (* [null]: no selection made *)
| Wildcard                          (* [undefined]: wildcard availability *)
| Specific (c : CodeableConcept).   (* a specific service type *)

#[global] Instance ServiceTypeState_eq_dec : EqDecision ServiceTypeState.
Proof. solve_decision. Defined.

(** An element of [(CodeableConcept | undefined)[]] stored into the state. *)
Definition ofServiceType (st : option CodeableConcept) : ServiceTypeState :=
  match st with
  | Some c => Specific c
  | None => Wildcard
  end.

(** The initial value handed to [useState]:
    [serviceTypes.length === 1 ? serviceTypes[0].codeableConcept : null]. *)
Definition initialServiceType (serviceTypes : list (option CodeableConcept))
  : ServiceTypeState :=
  match serviceTypes with
  | [st] => ofServiceType st
  | _ => NoSelection
  end.

(** Modelled from the spec: the hook [useSchedulingStartsAt] of
    [src/hooks/useSchedulingStartsAt.ts], not among the sources; section 4.5
    and 4.3 make it the wall clock plus the minimum notice. *)
Definition useSchedulingStartsAt (minimumNoticeMinutes : Z) (now : Z) : Z :=
  now + minimumNoticeMinutes * 60 * 1000.

(** [range.start < earliestSchedulable ? earliestSchedulable : range.start]
    on the [Date] objects. *)
Definition searchStartDate (rangeStart earliestSchedulable : JsDate.Date)
  : JsDate.Date :=
  if JsDate.lt rangeStart earliestSchedulable then earliestSchedulable
  else rangeStart.

(** [searchStart < range.end ? range.end
     : new Date(searchStart.getTime() + ONE_WEEK_MS)]
    on the [Date] objects. *)
Definition searchEndDate (rangeEnd searchStart : JsDate.Date) : JsDate.Date :=
  if JsDate.lt searchStart rangeEnd then rangeEnd
  else JsDate.addMs searchStart ONE_WEEK_MS.

(** Lines 64 to 67 of the effect: the two Dates and then
    [searchStart.toISOString()] and [searchEnd.toISOString()]; nothing when
    one of the two calls throws, which ends the effect before any request
    is made. *)
Definition searchWindow (iso : Z → string)
  (rangeStart rangeEnd earliestSchedulable : JsDate.Date)
  : option (string * string) :=
  let searchStart := searchStartDate rangeStart earliestSchedulable in
  let searchEnd := searchEndDate rangeEnd searchStart in
  match JsDate.toISOString iso searchStart with
  | Some start =>
      match JsDate.toISOString iso searchEnd with
      | Some end_ => Some (start, end_)
      | None => None
      end
  | None => None
  end.

(** The search start on time values: what [searchStartDate] computes when
    both Dates are valid. *)
Definition searchStart (range : Range) (earliestSchedulable : Z) : Z :=
  if start range <? earliestSchedulable then earliestSchedulable
  else start range.

(** The search end on time values: what [searchEndDate] computes when the
    Dates are valid and the one-week window, where it is used, ends at a
    valid Date. The state machine of the pane below works on such time
    values. *)
Definition searchEnd (range : Range) (searchStart : Z) : Z :=
  if searchStart <? end_ range then end_ range
  else searchStart + ONE_WEEK_MS.

(** A template-literal hole filled with an optional string. *)
Definition interpolate (s : option string) : string := default "undefined" s.

(** [`${coding.system}|${coding.code}`] *)
Definition serviceTypeTerm (c : Coding) : string :=
  interpolate (coding_system c) +:+ "|" +:+ interpolate (coding_code c).

(** The [URLSearchParams] of the request, as its ordered list of pairs:
    [{ start, end }] and then one appended [service-type] per coding when
    [serviceType] is truthy. *)
Definition searchParams (start end_ : string) (serviceType : ServiceTypeState)
  : list (string * string) :=
  [("start", start); ("end", end_)] ++
  match serviceType with
  | Specific c =>
      (λ coding, ("service-type", serviceTypeTerm coding))
        <$> default [] (coding c)
  | Wildcard | NoSelection => []
  end.


(** One [$find] request issued by the effect together with the two flags of
    its closure: [signal.aborted] and [completed]. *)
Record Search := mkSearch {
  scheduleId : string;
  params : list (string * string);
  aborted : bool;
  completed : bool;
}.

(** How the promise of a request settles. The resources of a bundle are
    objects, held by reference. *)
Inductive Response :=
| Fulfilled (bundle : Bundle loc)
| Rejected (error : string).

Record BookResults := mkBookResults {
  appointments : list loc;
  booked_slots : list loc;
}.

(** One mounted [FindPane]: its props, its React state, the closures of the
    effects run so far, the world of objects, and the calls made to the
    outside ([showErrorNotification], [setSlots], [onSuccess]) in order. *)
Record Pane := mkPane {
  schedule : Schedule;
  range : Range;
  earliestSchedulable : Z;
  serviceType : ServiceTypeState;
  slots : option (list loc);
  chosenSlot : option loc;
  searches : list Search;
  armed : option nat;
  mounted : bool;
  world : World;
  notifications : list string;
  slotUpdates : list (list loc);
  onSuccessCalls : list BookResults;
}.

Definition serviceTypes (p : Pane) : list (option CodeableConcept) :=
  serviceTypesFromSchedulingParameters (schedule p).

Definition withInputs (r : Range) (e : Z) (p : Pane) : Pane :=
  mkPane (schedule p) r e (serviceType p) (slots p) (chosenSlot p)
    (searches p) (armed p) (mounted p) (world p) (notifications p)
    (slotUpdates p) (onSuccessCalls p).

Definition setServiceType (st : ServiceTypeState) (p : Pane) : Pane :=
  mkPane (schedule p) (range p) (earliestSchedulable p) st (slots p)
    (chosenSlot p) (searches p) (armed p) (mounted p) (world p)
    (notifications p) (slotUpdates p) (onSuccessCalls p).

Definition setSlots (v : list loc) (p : Pane) : Pane :=
  mkPane (schedule p) (range p) (earliestSchedulable p) (serviceType p)
    (Some v) (chosenSlot p) (searches p) (armed p) (mounted p) (world p)
    (notifications p) (slotUpdates p ++ [v]) (onSuccessCalls p).

Definition setChosenSlot (c : option loc) (p : Pane) : Pane :=
  mkPane (schedule p) (range p) (earliestSchedulable p) (serviceType p)
    (slots p) c (searches p) (armed p) (mounted p) (world p)
    (notifications p) (slotUpdates p) (onSuccessCalls p).

Definition withSearches (ss : list Search) (a : option nat) (p : Pane) : Pane :=
  mkPane (schedule p) (range p) (earliestSchedulable p) (serviceType p)
    (slots p) (chosenSlot p) ss a (mounted p) (world p) (notifications p)
    (slotUpdates p) (onSuccessCalls p).

Definition withMounted (m : bool) (p : Pane) : Pane :=
  mkPane (schedule p) (range p) (earliestSchedulable p) (serviceType p)
    (slots p) (chosenSlot p) (searches p) (armed p) m (world p)
    (notifications p) (slotUpdates p) (onSuccessCalls p).

Definition withWorld (w : World) (p : Pane) : Pane :=
  mkPane (schedule p) (range p) (earliestSchedulable p) (serviceType p)
    (slots p) (chosenSlot p) (searches p) (armed p) (mounted p) w
    (notifications p) (slotUpdates p) (onSuccessCalls p).

Definition showErrorNotification (error : string) (p : Pane) : Pane :=
  mkPane (schedule p) (range p) (earliestSchedulable p) (serviceType p)
    (slots p) (chosenSlot p) (searches p) (armed p) (mounted p) (world p)
    (notifications p ++ [error]) (slotUpdates p) (onSuccessCalls p).

Definition onSuccess (results : BookResults) (p : Pane) : Pane :=
  mkPane (schedule p) (range p) (earliestSchedulable p) (serviceType p)
    (slots p) (chosenSlot p) (searches p) (armed p) (mounted p) (world p)
    (notifications p) (slotUpdates p) (onSuccessCalls p ++ [results]).

Definition abort (s : Search) : Search :=
  mkSearch (scheduleId s) (params s) true (completed s).

Definition complete (s : Search) : Search :=
  mkSearch (scheduleId s) (params s) (aborted s) true.

Section Effect.

(** [Date.prototype.toISOString], left abstract. *)
Variable toISOString : Z → string.

(** The body of the effect. With no selection it returns at once and leaves
    an empty cleanup; otherwise it computes the search range, issues the
    [$find] request and arms the cleanup of that request. ([schedule] is a
    required prop, so [!schedule] is false.) *)
Definition effectBody (p : Pane) : Pane :=
  match serviceType p with
  | NoSelection => withSearches (searches p) None p
  | st =>
      let sStart := searchStart (range p) (earliestSchedulable p) in
      let sEnd := searchEnd (range p) sStart in
      let params := searchParams (toISOString sStart) (toISOString sEnd) st in
      withSearches
        (searches p ++ [mkSearch (schedule_id (schedule p)) params false false])
        (Some (length (searches p))) p
  end.

(** The request the effect issues for the current props and state. *)
Definition issued (p : Pane) : Search :=
  mkSearch (schedule_id (schedule p))
    (searchParams
       (toISOString (searchStart (range p) (earliestSchedulable p)))
       (toISOString
          (searchEnd (range p)
             (searchStart (range p) (earliestSchedulable p))))
       (serviceType p))
    false false.

(** The cleanup returned by the previous run of the effect:
    [if (!completed) controller.abort()]. *)
Definition effectCleanup (p : Pane) : Pane :=
  match armed p with
  | Some i =>
      withSearches
        (alter (λ s, if completed s then s else abort s) i (searches p))
        None p
  | None => p
  end.

(** A dependency of the effect changed: cleanup, then the body again. *)
Definition rerunEffect (p : Pane) : Pane := effectBody (effectCleanup p).

(** The re-render after a batch of state updates: the effect runs again only
    when [serviceType] is no longer the value [old] it had before. *)
Definition rerender (old : ServiceTypeState) (p : Pane) : Pane :=
  if decide (serviceType p = old) then p else rerunEffect p.

(** The fulfilment handler of the request whose flag is [isAborted]. *)
Definition onFulfilled (isAborted : bool) (bundle : Bundle loc) (p : Pane)
  : Pane :=
  if isAborted then p
  else
    match entry bundle with
    | Some entries =>
        let w :=
          foldl (λ w e,
                   match resource e with
                   | Some l => SchedulingTransientIdentifier.set l w
                   | None => w
                   end)
                (world p) entries in
        setSlots (omap resource entries) (withWorld w p)
    | None => setSlots [] p
    end.

(** The rejection handler of the request whose flag is [isAborted]. *)
Definition onRejected (isAborted : bool) (error : string) (p : Pane) : Pane :=
  if isAborted then p else showErrorNotification error p.

(** The promise of request [i] settles: the matching handler runs, then
    [finally] sets [completed]. A promise settles at most once. *)
Definition settle (i : nat) (r : Response) (p : Pane) : Pane :=
  match searches p !! i with
  | Some s =>
      if completed s then p
      else
        let p' :=
          match r with
          | Fulfilled bundle => onFulfilled (aborted s) bundle p
          | Rejected error => onRejected (aborted s) error p
          end in
        withSearches (alter complete i (searches p')) (armed p') p'
  | None => p
  end.

(** [handleDismiss] *)
Definition handleDismiss (p : Pane) : Pane :=
  setSlots [] (setServiceType NoSelection p).

(** [handleBookSuccess] *)
Definition handleBookSuccess (results : BookResults) (p : Pane) : Pane :=
  onSuccess results
    (setChosenSlot None (setSlots [] (setServiceType NoSelection p))).

(** Which of the three returned views is on screen. *)
Inductive View := BookingForm | SlotList | ServiceTypeList.

#[global] Instance View_eq_dec : EqDecision View.
Proof. solve_decision. Defined.

Definition view (p : Pane) : View :=
  match chosenSlot p, serviceType p with
  | Some _, _ => BookingForm
  | None, NoSelection => ServiceTypeList
  | None, _ => SlotList
  end.

(** What can happen to a mounted pane. The user events are those of the
    controls on screen. *)
Inductive Event :=
| SelectServiceType (k : nat)        (* click on the k-th service type *)
| Dismiss                            (* "Clear selection" of the slot list *)
| ChooseSlot (l : loc)               (* click on a slot *)
| ClearChosenSlot                    (* "Clear selection" of the form *)
| BookSuccess (results : BookResults)
| RangeChange (r : Range)            (* new [range] prop *)
| ClockChange (e : Z)                (* new [earliestSchedulable] *)
| Settle (i : nat) (r : Response)    (* the promise of request [i] settles *)
| Unmount.

(** A user or prop event reaches the pane only while it is mounted. *)
Definition whileMounted (p : Pane) (next : Pane) : Pane :=
  if mounted p then next else p.

(** One event: the handler of the control on screen, then the re-render
    with its run of the effect when a dependency changed. *)
Definition step (ev : Event) (p : Pane) : Pane :=
  match ev with
  | SelectServiceType k =>
      whileMounted p
        match view p, serviceTypes p !! k with
        | ServiceTypeList, Some st =>
            rerender (serviceType p) (setServiceType (ofServiceType st) p)
        | _, _ => p
        end
  | Dismiss =>
      whileMounted p
        (if decide (view p = SlotList ∧ (1 < length (serviceTypes p))%nat)
         then rerender (serviceType p) (handleDismiss p) else p)
  | ChooseSlot l =>
      whileMounted p
        (if decide (view p = SlotList ∧ l ∈ default [] (slots p))
         then setChosenSlot (Some l) p else p)
  | ClearChosenSlot =>
      whileMounted p
        (if decide (view p = BookingForm) then setChosenSlot None p else p)
  | BookSuccess results =>
      whileMounted p
        (if decide (view p = BookingForm)
         then rerender (serviceType p) (handleBookSuccess results p) else p)
  | RangeChange r =>
      whileMounted p (rerunEffect (withInputs r (earliestSchedulable p) p))
  | ClockChange e =>
      whileMounted p (rerunEffect (withInputs (range p) e p))
  | Settle i r => settle i r p
  | Unmount => whileMounted p (withMounted false (effectCleanup p))
  end.

(** A sequence of events, oldest first. *)
Definition run (evs : list Event) (p : Pane) : Pane :=
  foldl (λ p ev, step ev p) p evs.

(** The first render and the first run of the effect. *)
Definition mount (schedule : Schedule) (range : Range) (earliestSchedulable : Z)
  (w : World) : Pane :=
  effectBody
    (mkPane schedule range earliestSchedulable
       (initialServiceType (serviceTypesFromSchedulingParameters schedule))
       None None [] None true w [] [] []).

End Effect.

(** The slot list a fulfilled response delivers to [setSlots]. *)
Definition delivered (bundle : Bundle loc) : list loc :=
  match entry bundle with
  | Some entries => omap resource entries
  | None => []
  end.

(** A search is in flight: neither settled nor aborted. *)
Definition inFlight (s : Search) : Prop :=
  completed s = false ∧ aborted s = false.

(** The only search that may be in flight is the one whose cleanup is
    armed. *)
Definition tracked (p : Pane) : Prop :=
  ∀ i s, searches p !! i = Some s → inFlight s → armed p = Some i.


(** The events that change a dependency of the effect other than the
    selection. *)
Definition reissues (ev : Event) : bool :=
  match ev with
  | RangeChange _ | ClockChange _ => true
  | _ => false
  end.


End FindPane.

(** ** The booking form ([src/components/schedule/BookAppointmentForm.tsx]) *)

Module BookAppointmentForm.
Import Fhir.

(** The calls the form makes to its collaborators. *)
Inductive Call :=
| SetLoading (b : bool)
| Post (url : string) (slot : Resource) (patientReference : string)
| InvalidateSearches (resourceType : string)
| OnSuccess (appointments slots : list Resource)
| ShowErrorNotification (error : string).

#[global] Instance Call_eq_dec : EqDecision Call.
Proof. solve_decision. Defined.

(** How an async function ends: with a value or with a thrown error. *)
Inductive Outcome (A : Type) :=
| Returned (a : A)
| Thrown (error : string).
Arguments Returned {A} _.
Arguments Thrown {A} _.

(** An async function run to its end: the calls it made, in order, and its
    outcome. *)
Definition Async (A : Type) : Type := list Call * Outcome A.

#[global] Instance Async_ret : MRet Async := λ A a, ([], Returned a).

#[global] Instance Async_bind : MBind Async := λ A B k m,
  match m.2 with
  | Returned a => (m.1 ++ (k a).1, (k a).2)
  | Thrown error => (m.1, Thrown error)
  end.

Definition call (c : Call) : Async unit := ([c], Returned tt).

(** [try { body } finally { fin }] *)
Definition tryFinally {A} (body : Async A) (fin : Async unit) : Async A :=
  match fin.2 with
  | Returned _ => (body.1 ++ fin.1, body.2)
  | Thrown error => (body.1 ++ fin.1, Thrown error)
  end.

(** [try { body } catch (error) { handler }] *)
Definition tryCatch {A} (body : Async A) (handler : string → Async A)
  : Async A :=
  match body.2 with
  | Returned a => body
  | Thrown error => (body.1 ++ (handler error).1, (handler error).2)
  end.

(** [medplum.fhirUrl(...path)], relative to the server's base. *)
Definition fhirUrl (resourceType operation : string) : string :=
  "fhir/R4/" +:+ resourceType +:+ "/" +:+ operation.

(** [data.entry?.map((entry) => entry.resource).filter(isDefined) ?? EMPTY] *)
Definition resources (data : Bundle Resource) : list Resource :=
  match entry data with
  | Some entries => omap resource entries
  | None => []
  end.

(** [resources.filter((obj) => obj.resourceType === 'Slot')] *)
Definition slots (data : Bundle Resource) : list Resource :=
  filter (λ obj, resourceType obj = "Slot") (resources data).

(** [resources.filter((obj) => obj.resourceType === 'Appointment')] *)
Definition appointments (data : Bundle Resource) : list Resource :=
  filter (λ obj, resourceType obj = "Appointment") (resources data).

Section Form.

(** [createReference(resource).reference] of the client SDK, left
    abstract: the reference string it makes for a resource. *)
Variable createReference : Resource → string.

(** What the server answers to a [$book] request for a slot and a patient
    reference: a bundle, or the error [medplum.post] rejects with. *)
Variable server : Resource → string → Outcome (Bundle Resource).

(** The props: the slot, and whether [onSuccess] was passed. *)
Variable slot : Resource.
Variable hasOnSuccess : bool.

(** [medplum.post(url, { parameter: [slot, patient-reference] })] *)
Definition post (url : string) (slot : Resource) (patientReference : string)
  : Async (Bundle Resource) :=
  ([Post url slot patientReference], server slot patientReference).

(** [bookSlot] *)
Definition bookSlot (patient : Resource) : Async unit :=
  call (SetLoading true);;
  tryFinally
    (data ← post (fhirUrl "Appointment" "$book") slot (createReference patient);
     call (InvalidateSearches "Appointment");;
     call (InvalidateSearches "Slot");;
     if hasOnSuccess then call (OnSuccess (appointments data) (slots data))
     else mret tt)
    (call (SetLoading false)).

(** [handleSubmit], with the [patient] state at the time of the submit. *)
Definition handleSubmit (patient : option Resource) : Async unit :=
  match patient with
  | None => mret tt
  | Some patient =>
      tryCatch (bookSlot patient)
        (λ error, call (ShowErrorNotification error))
  end.

End Form.

Definition isPost (c : Call) : bool :=
  match c with Post _ _ _ => true | _ => false end.

Definition isOnSuccess (c : Call) : bool :=
  match c with OnSuccess _ _ => true | _ => false end.

End BookAppointmentForm.

(** ** The schedule page ([src/pages/schedule/SchedulePage.tsx]) *)

Module SchedulePage.
Import Fhir.

(** The [results] argument of [onSuccess]. *)
Record Results := mkResults {
  appointments : list Resource;
  slots : list Resource;
}.

(** The two collections of the page; [None] is the initial [undefined]. *)
Record State := mkState {
  state_slots : option (list Resource);
  state_appointments : option (list Resource);
}.

(** [handleBookSuccess] *)
Definition handleBookSuccess (results : Results) (st : State) : State :=
  mkState
    (Some (filter (λ slot, status slot ≠ Some "busy") (slots results)
           ++ default [] (state_slots st)))
    (Some (appointments results ++ default [] (state_appointments st))).

End SchedulePage.

(** ** Sample data, after the fixtures of the test suites *)

Module Samples.
Import Fhir Store Scheduling Types FindPane.

Definition serviceType1 : CodeableConcept :=
  mkCodeableConcept
    (Some [mkCoding (Some "http://example.com/service-types") (Some "checkup")])
    (Some "Annual Checkup").

Definition serviceType2 : CodeableConcept :=
  mkCodeableConcept
    (Some [mkCoding (Some "http://example.com/service-types") (Some "followup")])
    (Some "Follow-up Visit").

(** [createScheduleWithServiceTypes] of [FindPane.test.tsx] *)
Definition createScheduleWithServiceTypes
  (serviceTypes : list (option CodeableConcept)) : Schedule :=
  mkSchedule "schedule-1"
    (Some ((λ st,
              mkExtension SchedulingParametersURI
                (Some match st with
                      | Some c => [mkSubExtension "serviceType" (Some c)]
                      | None => []
                      end)) <$> serviceTypes)).

(** 2024-01-15T00:00:00Z to 2024-01-21T23:59:59Z *)
Definition defaultRange : Range := mkRange 1705276800000 1705881599000.

Definition slot1 : Resource :=
  mkResource "Slot" (Some "slot-1") None (Some "free")
    (Some "2024-01-16T10:00:00Z") (Some "2024-01-16T10:30:00Z").

Definition slot2 : Resource :=
  mkResource "Slot" (Some "slot-2") None (Some "free")
    (Some "2024-01-16T11:00:00Z") (Some "2024-01-16T11:30:00Z").

(** A world holding the two mock slots, whose identifier source counts. *)
Definition world0 : World :=
  mkWorld pretty 0 (<[0%nat := slot1]> (<[1%nat := slot2]> ∅)).

(** A stand-in for [toISOString]: the time value in decimal. *)
Definition isoStub (t : Z) : string := pretty t.

(** The pane of a schedule with two service types, 2024-01-15T09:00:00Z on
    the clock. *)
Definition pane0 : Pane :=
  mount isoStub (createScheduleWithServiceTypes [Some serviceType1; Some serviceType2])
    defaultRange (useSchedulingStartsAt 30 1705309200000) world0.

(** The pane of a schedule with a single service type: it searches as soon
    as it is mounted. *)
Definition pane1 : Pane :=
  mount isoStub (createScheduleWithServiceTypes [Some serviceType1])
    defaultRange (useSchedulingStartsAt 30 1705309200000) world0.



(** Two responses: the first holds slot 0, the second slot 1 and an entry
    without a resource. *)
Definition bundle1 : Bundle loc := mkBundle (Some [mkBundleEntry (Some 0%nat)]).
Definition bundle2 : Bundle loc :=
  mkBundle (Some [mkBundleEntry None; mkBundleEntry (Some 1%nat)]).

End Samples.

(** ** Predicates on the request log of the search pane *)

Module FindPaneLog.
Import FindPane.

(** A later state [s'] of the request [s]: the same query, and a flag that
    was raised is still raised. *)
Definition evolves (s s' : Search) : Prop :=
  scheduleId s' = scheduleId s ∧ params s' = params s
  ∧ (aborted s = true → aborted s' = true)
  ∧ (completed s = true → completed s' = true).

(** A later state [ss'] of the request log [ss]: every request is still
    there, at its place, in a later state. *)
Definition extends (ss ss' : list Search) : Prop :=
  ∀ i s, ss !! i = Some s → ∃ s', ss' !! i = Some s' ∧ evolves s s'.

(** No cleanup is armed when nothing is selected or the pane is gone. *)
Definition disarmed (p : Pane) : Prop :=
  (serviceType p = NoSelection → armed p = None)
  ∧ (mounted p = false → armed p = None).

End FindPaneLog.

(** ** More of the schedule page ([src/pages/schedule/SchedulePage.tsx]) *)

Module SchedulePageView.
Import Fhir Scheduling Types.

(** [schedule && serviceTypesFromSchedulingParameters(schedule)] *)
Definition serviceTypes (schedule : option Schedule)
  : option (list (option CodeableConcept)) :=
  serviceTypesFromSchedulingParameters <$> schedule.

(** The condition under which the page renders the find pane:
    [Boolean(serviceTypes?.length) && schedule && range]. *)
Definition showsFindPane (schedule : option Schedule) (range : option Range)
  : bool :=
  bool_decide (default 0%nat (length <$> serviceTypes schedule) ≠ 0%nat)
  && bool_decide (is_Some schedule) && bool_decide (is_Some range).

(** The updater handed to [setAppointments] by [handleAppointmentUpdate]:
    [(state ?? []).map((existing) =>
       existing.id === updated.id ? updated : existing)]. *)
Definition updateAppointments (updated : Resource)
  (state : option (list Resource)) : list Resource :=
  (λ existing, if decide (id existing = id updated) then updated else existing)
    <$> default [] state.

(** The updater handed to [setAppointmentDetails] by
    [handleAppointmentUpdate]:
    [existing?.id === updated.id ? updated : existing]. *)
Definition updateAppointmentDetails (updated : Resource)
  (existing : option Resource) : option Resource :=
  if decide (existing ≫= id = id updated) then Some updated else existing.

End SchedulePageView.

(** ** The state of the booking form
       ([src/components/schedule/BookAppointmentForm.tsx]) *)

Module BookAppointmentFormState.
Import Fhir BookAppointmentForm.




Section Form.

Variable createReference : Resource → string.
Variable server : Resource → string → Outcome (Bundle Resource).
Variable slot : Resource.
Variable hasOnSuccess : bool.



End Form.

End BookAppointmentFormState.

(** ** The two fetch effects of the schedule page
       ([src/pages/schedule/SchedulePage.tsx]) *)

Module SchedulePageEffects.
Import Fhir Types.

(** One [searchResources] request of an effect, with the [active] flag of
    its closure and whether its promise has settled. *)
Record Fetch := mkFetch {
  query : list (string * string);
  active : bool;
  settled : bool;
}.

(** The runs of one effect: the requests made so far and the request whose
    cleanup is armed. *)
Record Effect := mkEffect {
  fetches : list Fetch;
  armedFetch : option nat;
}.

(** How the promise of a request settles. *)
Inductive Answer :=
| Found (resources : list Resource)
| Failed (error : string).

Record Page := mkPage {
  schedule : option Schedule;
  profile : option Resource;
  range : option Range;
  collections : SchedulePage.State;
  slotEffect : Effect;
  appointmentEffect : Effect;
  notifications : list string;
}.

(** The cleanup of an effect: [active = false]. *)
Definition cleanupEffect (e : Effect) : Effect :=
  match armedFetch e with
  | Some i =>
      mkEffect
        (alter (λ f, mkFetch (query f) false (settled f)) i (fetches e)) None
  | None => e
  end.

(** A run of an effect that searches: [let active = true] and the
    request. *)
Definition issueFetch (q : list (string * string)) (e : Effect) : Effect :=
  mkEffect (fetches e ++ [mkFetch q true false]) (Some (length (fetches e))).

(** The promise of request [i] settles: whether its closure is still
    active, and the effect with the request marked; nothing when there is
    no such request or it has settled already. *)
Definition settleFetch (i : nat) (e : Effect) : option (bool * Effect) :=
  match fetches e !! i with
  | Some f =>
      if settled f then None
      else Some (active f,
                 mkEffect
                   (alter (λ f, mkFetch (query f) (active f) true) i
                      (fetches e))
                   (armedFetch e))
  | None => None
  end.

Section Effects.

(** [Date.prototype.toISOString], [getReferenceString] on the schedule and
    on the profile, and [mergeOverlappingSlots] on slot resources, left
    abstract. *)
Variable toISOString : Z → string.
Variable scheduleReference : Schedule → string.
Variable profileReference : Resource → string.
Variable mergeSlots : list Resource → list Resource.

Definition slotQuery (s : Schedule) (r : Range) : list (string * string) :=
  [("_count", "1000"); ("schedule", scheduleReference s);
   ("start", "ge" +:+ toISOString (start r));
   ("start", "le" +:+ toISOString (end_ r));
   ("status", "free,busy-unavailable")].

Definition appointmentQuery (actor : Resource) (r : Range)
  : list (string * string) :=
  [("_count", "1000"); ("actor", profileReference actor);
   ("date", "ge" +:+ toISOString (start r));
   ("date", "le" +:+ toISOString (end_ r))].

(** The effect that finds the slots of the range: the previous cleanup, then
    a request unless the schedule or the range is missing. *)
Definition runSlotEffect (p : Page) : Page :=
  let e := cleanupEffect (slotEffect p) in
  mkPage (schedule p) (profile p) (range p) (collections p)
    match schedule p, range p with
    | Some s, Some r => issueFetch (slotQuery s r) e
    | _, _ => e
    end
    (appointmentEffect p) (notifications p).

(** The effect that finds the appointments of the range. *)
Definition runAppointmentEffect (p : Page) : Page :=
  let e := cleanupEffect (appointmentEffect p) in
  mkPage (schedule p) (profile p) (range p) (collections p) (slotEffect p)
    match profile p, range p with
    | Some actor, Some r => issueFetch (appointmentQuery actor r) e
    | _, _ => e
    end
    (notifications p).

Definition withCollections (c : SchedulePage.State) (p : Page) : Page :=
  mkPage (schedule p) (profile p) (range p) c (slotEffect p)
    (appointmentEffect p) (notifications p).

Definition notify (error : string) (p : Page) : Page :=
  mkPage (schedule p) (profile p) (range p) (collections p) (slotEffect p)
    (appointmentEffect p) (notifications p ++ [error]).

(** [.then((rawSlots) => active && setSlots(mergeOverlappingSlots(rawSlots)))
     .catch((error) => active && showErrorNotification(error))] *)
Definition slotsSettled (i : nat) (a : Answer) (p : Page) : Page :=
  match settleFetch i (slotEffect p) with
  | Some (isActive, e) =>
      let p' :=
        mkPage (schedule p) (profile p) (range p) (collections p) e
          (appointmentEffect p) (notifications p) in
      if isActive then
        match a with
        | Found rawSlots =>
            withCollections
              (SchedulePage.mkState (Some (mergeSlots rawSlots))
                 (SchedulePage.state_appointments (collections p'))) p'
        | Failed error => notify error p'
        end
      else p'
  | None => p
  end.

(** [.then((appointments) => active && setAppointments(appointments))
     .catch((error) => active && showErrorNotification(error))] *)
Definition appointmentsSettled (i : nat) (a : Answer) (p : Page) : Page :=
  match settleFetch i (appointmentEffect p) with
  | Some (isActive, e) =>
      let p' :=
        mkPage (schedule p) (profile p) (range p) (collections p)
          (slotEffect p) e (notifications p) in
      if isActive then
        match a with
        | Found appointments =>
            withCollections
              (SchedulePage.mkState
                 (SchedulePage.state_slots (collections p'))
                 (Some appointments)) p'
        | Failed error => notify error p'
        end
      else p'
  | None => p
  end.

(** What can happen to the page once it is rendered. *)
Inductive PageEvent :=
| ScheduleLoaded (s : Schedule)          (* [setSchedule] *)
| RangeChanged (r : Range)               (* [onRangeChange] of the calendar *)
| SlotsSettled (i : nat) (a : Answer)
| AppointmentsSettled (i : nat) (a : Answer)
| Booked (results : SchedulePage.Results)  (* [onSuccess] of the find pane *)
| Unmounted.

Definition pageStep (ev : PageEvent) (p : Page) : Page :=
  match ev with
  | ScheduleLoaded s =>
      runSlotEffect
        (mkPage (Some s) (profile p) (range p) (collections p) (slotEffect p)
           (appointmentEffect p) (notifications p))
  | RangeChanged r =>
      runAppointmentEffect
        (runSlotEffect
           (mkPage (schedule p) (profile p) (Some r) (collections p)
              (slotEffect p) (appointmentEffect p) (notifications p)))
  | SlotsSettled i a => slotsSettled i a p
  | AppointmentsSettled i a => appointmentsSettled i a p
  | Booked results =>
      withCollections (SchedulePage.handleBookSuccess results (collections p)) p
  | Unmounted =>
      mkPage (schedule p) (profile p) (range p) (collections p)
        (cleanupEffect (slotEffect p)) (cleanupEffect (appointmentEffect p))
        (notifications p)
  end.

Definition pageRun (evs : list PageEvent) (p : Page) : Page :=
  foldl (λ p ev, pageStep ev p) p evs.

(** The first render: nothing loaded, no range yet, so neither effect
    searches. *)
Definition firstRender (profile : option Resource) : Page :=
  mkPage None profile None (SchedulePage.mkState None None)
    (mkEffect [] None) (mkEffect [] None) [].

End Effects.

(** Among the requests of an effect, only the armed one can be active. *)
Definition guarded (e : Effect) : Prop :=
  ∀ i f, fetches e !! i = Some f → active f = true → armedFetch e = Some i.

End SchedulePageEffects.

(** ** JavaScript truthiness of optional strings *)

Module Js.

(** An optional string is truthy when it is there and not empty. *)
Definition truthy (s : option string) : bool :=
  match s with
  | Some s => bool_decide (s ≠ "")
  | None => false
  end.

(** [a || b] on optional strings. *)
Definition orElse (a b : option string) : option string :=
  if truthy a then a else b.

End Js.

(** ** The billing tab (component [BillingTab]) *)

Module BillingTab.
Import Fhir.

(** A [Condition], as far as the tab reads it. *)
Record Condition := mkCondition {
  code : option CodeableConcept;
}.

Record ClaimDiagnosis := mkClaimDiagnosis {
  diagnosisCodeableConcept : CodeableConcept;
  sequence : nat;
  type : list CodeableConcept;
}.

Section Diagnosis.

(** The constant [HTTP_HL7_ORG] of the client SDK. *)
Variable HTTP_HL7_ORG : string.

(** [condition.code?.coding?.find((c) => c.system === ".../icd-10-cm")] *)
Definition icd10Coding (condition : Condition) : option Coding :=
  codings ← code condition ≫= coding;
  snd <$> list_find
            (λ c, coding_system c = Some (HTTP_HL7_ORG +:+ "/fhir/sid/icd-10-cm"))
            codings.

(** One element of the map in [createDiagnosisArray]. *)
Definition diagnosisOf (index : nat) (condition : Condition) : ClaimDiagnosis :=
  mkClaimDiagnosis
    (mkCodeableConcept
       (Some match icd10Coding condition with
             | Some c =>
                 [mkCoding (Some (HTTP_HL7_ORG +:+ "/fhir/sid/icd-10"))
                    (coding_code c)]
             | None => []
             end)
       None)
    (index + 1)
    [mkCodeableConcept
       (Some [mkCoding None
                (Some (if decide (index = 0%nat) then "principal"
                       else "secondary"))])
       None].

(** [createDiagnosisArray] *)
Definition createDiagnosisArray (conditions : list Condition)
  : list ClaimDiagnosis :=
  imap diagnosisOf conditions.

End Diagnosis.

(** The calls [submitClaim] makes. *)
Inductive Call :=
| ShowNotification (title message color : string)
| SetSubmitting (b : bool)
| ExecuteBot (botId : string) (claim : Resource) (contentType : string)
| ShowErrorNotification (error : string).

Definition isExecuteBot (c : Call) : bool :=
  match c with ExecuteBot _ _ _ => true | _ => false end.

(** [submitClaim], with the claim, the conditions and the billing bot (its
    id) at the time of the click, and what [executeBot] does: it returns a
    result, of which the [message] is read, or rejects. *)
Definition submitClaim (claim : option Resource) (conditions : list Condition)
  (billingBot : option string)
  (executeBot : string → Resource →
                BookAppointmentForm.Outcome (option string))
  : list Call :=
  match claim with
  | None => []
  | Some claim =>
      if decide (length conditions = 0%nat) then
        [ShowNotification "Missing Diagnosis"
           "Please add at least one diagnosis before submitting a claim"
           "red"]
      else
        match billingBot with
        | None => []
        | Some botId =>
            [SetSubmitting true;
             ExecuteBot botId claim "application/fhir+json"]
            ++ match executeBot botId claim with
               | BookAppointmentForm.Returned message =>
                   [ShowNotification "Claim Submitted"
                      (default ""
                         (Js.orElse message
                            (Some "Claim successfully submitted to Candid Health")))
                      "green"]
               | BookAppointmentForm.Thrown error =>
                   [ShowErrorNotification error]
               end
            ++ [SetSubmitting false]
        end
  end.

End BillingTab.

(** ** The task filter menu (component [TaskFilterMenu]) *)

Module TaskFilterMenu.
Import Fhir.

(** [pt.coding?.[0]?.code] *)
Definition firstCode (pt : CodeableConcept) : option string :=
  match coding pt with
  | Some (c :: _) => coding_code c
  | _ => None
  end.

(** [pt.coding?.[0]?.code || pt.text] *)
Definition identifierOf (pt : CodeableConcept) : option string :=
  Js.orElse (firstCode pt) (text pt).

(** [self.findIndex((pt) => (pt.coding?.[0]?.code || pt.text) === identifier)],
    [None] standing for [-1]. *)
Definition findIndex (identifier : option string) (self : list CodeableConcept)
  : option nat :=
  fst <$> list_find (λ pt, identifierOf pt = identifier) self.

(** The callback of the filter, at an index. *)
Definition keeps (self : list CodeableConcept) (index : nat)
  (performerType : CodeableConcept) : bool :=
  Js.truthy (identifierOf performerType)
  && bool_decide (findIndex (identifierOf performerType) self = Some index).

(** [performerTypes?.filter((performerType, index, self) => ...) || []] *)
Definition uniquePerformerTypes (performerTypes : option (list CodeableConcept))
  : list CodeableConcept :=
  match performerTypes with
  | Some self =>
      snd <$> filter (λ ix, keeps self ix.1 ix.2) (imap pair self)
  | None => []
  end.

End TaskFilterMenu.

(** ** The messages page (component [MessagesPage]) *)

Module MessagesPage.

Record Filter := mkFilter {
  code : string;
  operator : string;
  value : string;
}.

#[global] Instance Filter_eq_dec : EqDecision Filter.
Proof. solve_decision. Defined.

(** A [SearchRequest], as far as the page reads or writes it. *)
Record SearchRequest := mkSearchRequest {
  resourceType : string;
  filters : option (list Filter);
  offset : option nat;
  count : option nat;
}.

Section Search.

(** [Operator.EQUALS] of the client SDK. *)
Variable EQUALS : string.

(** [buildStatusSearch] over the parsed search of the page. *)
Definition buildStatusSearch (parsedSearch : SearchRequest) (value : string)
  : SearchRequest :=
  let otherFilters :=
    filter (λ f, code f ≠ "status") (default [] (filters parsedSearch)) in
  let newFilters := otherFilters ++ [mkFilter "status" EQUALS value] in
  mkSearchRequest (resourceType parsedSearch) (Some newFilters) (Some 0%nat)
    (count parsedSearch).

End Search.

End MessagesPage.

(** ** The referrals page (component [ReferralsPage]) *)

Module ReferralsPage.
Import Fhir.

Inductive ReferralTab := active | completed | all.

(** [results.filter((r) => r.status === 'active' || r.status === 'draft'
                           || r.status === 'on-hold')] *)
Definition activeOf (results : list Resource) : list Resource :=
  filter (λ r, status r = Some "active" ∨ status r = Some "draft"
               ∨ status r = Some "on-hold") results.

(** [results.filter((r) => r.status === 'completed')] *)
Definition completedOf (results : list Resource) : list Resource :=
  filter (λ r, status r = Some "completed") results.

(** [currentItems], after [fetchReferrals] has stored the three lists. *)
Definition currentItems (activeTab : ReferralTab) (results : list Resource)
  : list Resource :=
  match activeTab with
  | active => activeOf results
  | completed => completedOf results
  | all => results
  end.

(** The calls of the effect that resolves the referral of the route. *)
Inductive Call :=
| SetCurrentReferral (referral : option Resource)
| ReadResource (resourceType id : string)
| ShowErrorNotification (error : string).



End ReferralsPage.

(** ** The referral form (component [CreateReferralModal]) *)

Module CreateReferralModal.
Import Fhir.

(** The coding of the referral category, with its display text. *)
Record CategoryCoding := mkCategoryCoding {
  category_system : string;
  category_code : string;
  category_display : string;
}.

(** The [ServiceRequest] the form builds; a spread that adds nothing leaves
    its field absent. *)
Record ServiceRequest := mkServiceRequest {
  sr_resourceType : string;
  sr_status : string;
  sr_intent : string;
  sr_priority : string;
  sr_code : CodeableConcept;
  sr_subject : string;
  sr_requester : string;
  sr_authoredOn : string;
  sr_category : list (list CategoryCoding);
  sr_reasonCode : option (list CodeableConcept);
  sr_note : option (list string);
  sr_occurrenceDateTime : option string;
  sr_performer : option (list string);
}.

(** The state of the form. *)
Record Form := mkForm {
  patient : option Resource;
  requester : option Resource;
  performer : option Resource;
  specialty : option CodeableConcept;
  priority : string;
  reasonCodes : list CodeableConcept;
  notes : string;
  occurrenceDateTime : option string;
  isSubmitting : bool;
}.

(** The calls the form makes to its collaborators. *)
Inductive Call :=
| CreateResource (serviceRequest : ServiceRequest)
| ShowNotification (title message color : string)
| OnClose
| OnCreated
| ShowErrorNotification (error : string).

Definition isCreateResource (c : Call) : bool :=
  match c with CreateResource _ => true | _ => false end.

Section Modal.

(** The props [defaultPatient] and whether [onCreated] was passed, and
    [createReference(resource).reference] of the client SDK, left
    abstract. *)
Variable defaultPatient : option Resource.
Variable hasOnCreated : bool.
Variable createReference : Resource → string.

(** The object literal of [handleSubmit]; [now] is what
    [new Date().toISOString()] gives at that submit. *)
Definition serviceRequest (now : string) (f : Form)
  (patient requester : Resource) (specialty : CodeableConcept)
  : ServiceRequest :=
  mkServiceRequest "ServiceRequest" "active" "order" (priority f) specialty
    (createReference patient)
    (createReference requester)
    now
    [[mkCategoryCoding "http://snomed.info/sct" "3457005" "Referral"]]
    (if decide (0 < length (reasonCodes f))%nat then Some (reasonCodes f)
     else None)
    (if decide (notes f ≠ "") then Some [notes f] else None)
    (if Js.truthy (occurrenceDateTime f) then occurrenceDateTime f else None)
    (match performer f with
     | Some performer => Some [createReference performer]
     | None => None
     end).

Definition setIsSubmitting (b : bool) (f : Form) : Form :=
  mkForm (patient f) (requester f) (performer f) (specialty f) (priority f)
    (reasonCodes f) (notes f) (occurrenceDateTime f) b.

(** The seven setters after [// Reset form]. *)
Definition resetForm (f : Form) : Form :=
  mkForm defaultPatient (requester f) None None "routine" [] "" None
    (isSubmitting f).

(** One [handleSubmit]: the form it leaves and the calls it made, in order.
    The clock and the server belong to the submit, not to the form: [now]
    is the clock read at this submit and [answer] is how
    [medplum.createResource] settles this time, [None] when it resolves and
    the error when it rejects. *)
Definition handleSubmit (now : string) (answer : option string) (f : Form)
  : Form * list Call :=
  match patient f, requester f, specialty f with
  | Some patient, Some requester, Some specialty =>
      let request := serviceRequest now f patient requester specialty in
      match answer with
      | None =>
          (setIsSubmitting false (resetForm (setIsSubmitting true f)),
           [CreateResource request;
            ShowNotification "Referral Created"
              "Successfully created new referral." "green";
            OnClose]
           ++ (if hasOnCreated then [OnCreated] else []))
      | Some error =>
          (setIsSubmitting false (setIsSubmitting true f),
           [CreateResource request; ShowErrorNotification error])
      end
  | _, _, _ => (f, [])
  end.

(** [handleClose] *)
Definition handleClose (f : Form) : list Call :=
  if isSubmitting f then [] else [OnClose].

End Modal.

End CreateReferralModal.

(** ** A schedule page to evaluate on *)

Module PageSamples.
Import Fhir Types SchedulePageEffects.

(** Stand-ins for [getReferenceString] of the client SDK, on a schedule
    and on a profile. *)
Definition scheduleReference (s : Schedule) : string :=
  "Schedule/" +:+ schedule_id s.

Definition profileReference (r : Resource) : string :=
  resourceType r +:+ "/" +:+ default "" (id r).

(** A stand-in for [mergeOverlappingSlots] that keeps the slots as found. *)
Definition keepSlots (raw : list Resource) : list Resource := raw.

Definition schedule1 : Schedule :=
  Samples.createScheduleWithServiceTypes [Some Samples.serviceType1].

Definition nextRange : Range := mkRange 1705881600000 1706486399000.

Definition step : PageEvent → Page → Page :=
  pageStep Samples.isoStub scheduleReference
    profileReference keepSlots.

Definition run : list PageEvent → Page → Page :=
  pageRun Samples.isoStub scheduleReference
    profileReference keepSlots.

(** The page of a user without profile after the schedule is loaded. *)
Definition loaded : Page := run [ScheduleLoaded schedule1] (firstRender None).

(** The same page after the calendar has moved twice. *)
Definition movedTwice : list PageEvent :=
  [ScheduleLoaded schedule1; RangeChanged Samples.defaultRange;
   RangeChanged nextRange].

Definition practitioner1 : Resource :=
  mkResource "Practitioner" (Some "practitioner-1") None None None None.

(** A page with a profile whose calendar moves twice before the schedule is
    loaded. *)
Definition movedThenLoaded : list PageEvent :=
  [RangeChanged Samples.defaultRange; RangeChanged nextRange;
   ScheduleLoaded schedule1].

Definition appointment1 : Resource :=
  mkResource "Appointment" (Some "appointment-1") None (Some "booked")
    (Some "2024-01-16T10:00:00Z") (Some "2024-01-16T10:30:00Z").

End PageSamples.

(** ** A referral form to evaluate on *)

Module ReferralSamples.
Import Fhir CreateReferralModal.

Definition patient1 : Resource :=
  mkResource "Patient" (Some "patient-1") None None None None.

Definition practitioner1 : Resource :=
  mkResource "Practitioner" (Some "practitioner-1") None None None None.

Definition cardiology : CodeableConcept :=
  mkCodeableConcept
    (Some [mkCoding (Some "http://snomed.info/sct") (Some "394579002")])
    (Some "Cardiology").

(** A filled form: urgent, with a note and no reason, date or performer. *)
Definition filled : Form :=
  mkForm (Some patient1) (Some practitioner1) None (Some cardiology) "urgent"
    [] "Chest pain on exertion" None false.

(** A stand-in for [createReference] of the client SDK. *)
Definition referenceOf (r : Resource) : string :=
  resourceType r +:+ "/" +:+ default "" (id r).

End ReferralSamples.

(** * Properties *)

Section MergeEngine.
Import Slots.

Lemma insertByStart_perm x l : insertByStart x l ≡ₚ x :: l.
Proof.
  induction l as [|y l IH]; simpl; [done|].
  destruct (start x <=? start y); [done|].
  rewrite IH. apply Permutation_swap.
Qed.

Lemma sortByStart_perm l : sortByStart l ≡ₚ l.
Proof.
  induction l as [|x l IH]; simpl; [done|].
  by rewrite insertByStart_perm, IH.
Qed.

Lemma insertByStart_sorted x l :
  StronglySorted byStart l → StronglySorted byStart (insertByStart x l).
Proof.
  induction 1 as [|y l Hs IH Hall]; simpl.
  - repeat constructor.
  - destruct (Z.leb_spec (start x) (start y)) as [Hle|Hgt].
    + constructor; [by constructor|].
      constructor; [done|].
      eapply Forall_impl; [exact Hall|]. unfold byStart. intros; lia.
    + constructor; [done|].
      rewrite insertByStart_perm. constructor; [unfold byStart; lia|done].
Qed.

Lemma sortByStart_sorted l : StronglySorted byStart (sortByStart l).
Proof.
  induction l; simpl; [constructor|by apply insertByStart_sorted].
Qed.

Lemma covered_perm l l' t : l ≡ₚ l' → covered l t ↔ covered l' t.
Proof.
  intros Hp. unfold covered.
  split; intros (i & Hi & Hc); exists i; split; try done.
  - by rewrite <- Hp.
  - by rewrite Hp.
Qed.

Lemma covered_cons i l t : covered (i :: l) t ↔ covers i t ∨ covered l t.
Proof.
  unfold covered. split.
  - intros (j & Hj & Hc). apply elem_of_cons in Hj as [->|Hj]; eauto.
  - intros [Hc|(j & Hj & Hc)]; [exists i|exists j];
      (split; [|done]); set_solver.
Qed.

Lemma covered_nil t : ¬ covered [] t.
Proof. intros (j & Hj & _). by apply elem_of_nil in Hj. Qed.

(** Every start that leaves the scan is the accumulator's start or the
    start of one of the intervals still to be scanned. *)
Lemma scan_starts rest : ∀ acc x,
  x ∈ scan acc rest →
  start x = start acc ∨ ∃ y, y ∈ rest ∧ start x = start y.
Proof.
  induction rest as [|next rest IH]; intros acc x; simpl.
  - rewrite list_elem_of_singleton. intros ->. by left.
  - destruct (start next <=? end_ acc).
    + intros Hx. apply IH in Hx as [Hx|(y & Hy & Hx)]; simpl in *.
      * by left.
      * right. exists y. split; [by right|done].
    + rewrite elem_of_cons. intros [->|Hx]; [by left|].
      apply IH in Hx as [Hx|(y & Hy & Hx)].
      * right. exists next. split; [by left|done].
      * right. exists y. split; [by right|done].
Qed.

Lemma scan_apart rest : ∀ acc,
  StronglySorted byStart (acc :: rest) →
  StronglySorted apart (scan acc rest).
Proof.
  induction rest as [|next rest IH]; intros acc Hs; simpl.
  - repeat constructor.
  - apply StronglySorted_inv in Hs as [Hs Hacc].
    pose proof Hs as Hs'.
    apply StronglySorted_inv in Hs' as [Hrest Hnext].
    apply Forall_cons in Hacc as [Han Hacc].
    destruct (Z.leb_spec (start next) (end_ acc)) as [Hle|Hgt].
    + apply IH. constructor; [done|].
      eapply Forall_impl; [exact Hacc|]. by unfold byStart.
    + constructor; [by apply IH|].
      apply Forall_forall. intros x Hx.
      apply scan_starts in Hx as [Hx|(y & Hy & Hx)]; unfold apart.
      * lia.
      * rewrite Forall_forall in Hnext. specialize (Hnext y Hy).
        unfold byStart in Hnext. lia.
Qed.

Lemma scan_covered rest : ∀ acc t,
  StronglySorted byStart (acc :: rest) →
  covered (scan acc rest) t ↔ covered (acc :: rest) t.
Proof.
  induction rest as [|next rest IH]; intros acc t Hs; simpl; [done|].
  apply StronglySorted_inv in Hs as [Hs Hacc].
  pose proof Hs as Hs'.
  apply StronglySorted_inv in Hs' as [Hrest Hnext].
  apply Forall_cons in Hacc as [Han Hacc].
  destruct (Z.leb_spec (start next) (end_ acc)) as [Hle|Hgt].
  - rewrite IH.
    + rewrite !covered_cons.
      assert (covers (mkInterval (start acc) (Z.max (end_ acc) (end_ next))) t
              ↔ covers acc t ∨ covers next t) as ->; [|tauto].
      unfold covers, byStart in *; simpl. lia.
    + constructor; [done|].
      eapply Forall_impl; [exact Hacc|]. by unfold byStart.
  - rewrite covered_cons, IH by done. by rewrite <- covered_cons.
Qed.

Lemma scan_valid rest : ∀ acc,
  valid acc → Forall valid rest → Forall valid (scan acc rest).
Proof.
  induction rest as [|next rest IH]; intros acc Hacc Hrest; simpl.
  - by constructor.
  - apply Forall_cons in Hrest as [Hn Hrest].
    destruct (start next <=? end_ acc).
    + apply IH; [|done]. unfold valid in *; simpl. lia.
    + constructor; [done|]. by apply IH.
Qed.

Lemma merge_apart l : StronglySorted apart (mergeOverlappingSlots l).
Proof.
  unfold mergeOverlappingSlots.
  pose proof (sortByStart_sorted l) as Hs.
  destruct (sortByStart l); [constructor|by apply scan_apart].
Qed.

Lemma merge_covered l t : covered (mergeOverlappingSlots l) t ↔ covered l t.
Proof.
  unfold mergeOverlappingSlots.
  pose proof (sortByStart_sorted l) as Hs.
  rewrite <- (covered_perm _ _ t (sortByStart_perm l)).
  destruct (sortByStart l); [done|by apply scan_covered].
Qed.

Lemma merge_valid l : Forall valid l → Forall valid (mergeOverlappingSlots l).
Proof.
  intros Hv. unfold mergeOverlappingSlots.
  assert (Forall valid (sortByStart l)) as Hv'.
  { by rewrite sortByStart_perm. }
  destruct (sortByStart l); [constructor|].
  apply Forall_cons in Hv' as [? ?]. by apply scan_valid.
Qed.

End MergeEngine.

Section MergeCorrectness.
Import Slots.

Lemma StronglySorted_lookup_lt {A} (R : relation A) (l : list A) i j a b :
  StronglySorted R l → (i < j)%nat →
  l !! i = Some a → l !! j = Some b → R a b.
Proof.
  intros Hs Hij Ha Hb.
  rewrite <- (take_drop j l) in Hs.
  eapply StronglySorted_app_1_elem_of; [exact Hs| |].
  - apply list_elem_of_lookup. exists i. by rewrite lookup_take_lt.
  - apply list_elem_of_lookup. exists 0%nat.
    by rewrite lookup_drop, Nat.add_0_r.
Qed.

Lemma apart_byStart l :
  Forall valid l → StronglySorted apart l → StronglySorted byStart l.
Proof.
  intros Hv Hs. induction Hs as [|a l Hs IH Hall]; [constructor|].
  apply Forall_cons in Hv as [Ha Hv].
  constructor; [by apply IH|].
  eapply Forall_impl; [exact Hall|].
  unfold apart, byStart, valid in *. intros; lia.
Qed.

(** The two examples of the specification (minutes of the day). *)
Example merge_overlapping_example :
  mergeOverlappingSlots
    [mkInterval 600 630; mkInterval 615 645; mkInterval 660 670]
  = [mkInterval 600 645; mkInterval 660 670].
Proof. reflexivity. Qed.

Example merge_touching_example :
  mergeOverlappingSlots [mkInterval 600 630; mkInterval 630 660]
  = [mkInterval 600 660].
Proof. reflexivity. Qed.

Example merge_nested_unsorted_example :
  mergeOverlappingSlots
    [mkInterval 700 710; mkInterval 600 690; mkInterval 610 620]
  = [mkInterval 600 690; mkInterval 700 710].
Proof. reflexivity. Qed.

(** C1. For every finite list of intervals (each with [start < end]), the
    list returned by [mergeOverlappingSlots] is sorted ascending by start;
    an earlier interval of it ends strictly before a later one starts, so
    that no two of its intervals share an instant and none ends exactly when
    another begins; and an instant is covered by the returned intervals
    exactly when it is covered by the given ones. *)
Theorem mergeOverlappingSlots_correct (intervals : list Interval) :
  Forall valid intervals →
  StronglySorted byStart (mergeOverlappingSlots intervals)
  ∧ (∀ i j a b, (i < j)%nat →
       mergeOverlappingSlots intervals !! i = Some a →
       mergeOverlappingSlots intervals !! j = Some b →
       end_ a < start b)
  ∧ (∀ i j a b, i ≠ j →
       mergeOverlappingSlots intervals !! i = Some a →
       mergeOverlappingSlots intervals !! j = Some b →
       ∀ t, ¬ (covers a t ∧ covers b t))
  ∧ (∀ a b, a ∈ mergeOverlappingSlots intervals →
       b ∈ mergeOverlappingSlots intervals → end_ a ≠ start b)
  ∧ (∀ t, covered (mergeOverlappingSlots intervals) t ↔ covered intervals t)
  ∧ Forall valid (mergeOverlappingSlots intervals).
Proof.
  intros Hv.
  pose proof (merge_apart intervals) as Hap.
  pose proof (merge_valid intervals Hv) as Hvm.
  assert (∀ i j a b, (i < j)%nat →
    mergeOverlappingSlots intervals !! i = Some a →
    mergeOverlappingSlots intervals !! j = Some b → end_ a < start b) as Hlt.
  { intros i j a b Hij Ha Hb.
    exact (StronglySorted_lookup_lt apart _ i j a b Hap Hij Ha Hb). }
  split_and!; [by apply apart_byStart|exact Hlt| | |apply merge_covered|done].
  - intros i j a b Hne Ha Hb t [Hca Hcb]. unfold covers in *.
    destruct (Nat.lt_total i j) as [Hij|[->|Hji]]; [|done|].
    + specialize (Hlt i j a b Hij Ha Hb). lia.
    + specialize (Hlt j i b a Hji Hb Ha). lia.
  - intros a b Ha Hb.
    rewrite Forall_forall in Hvm.
    pose proof (Hvm a Ha) as Hva. pose proof (Hvm b Hb) as Hvb.
    apply list_elem_of_lookup in Ha as [i Ha].
    apply list_elem_of_lookup in Hb as [j Hb].
    unfold valid in *.
    destruct (Nat.lt_total i j) as [Hij|[->|Hji]].
    + specialize (Hlt i j a b Hij Ha Hb). lia.
    + assert (a = b) as -> by congruence. lia.
    + specialize (Hlt j i b a Hji Hb Ha). lia.
Qed.

Lemma mergeOverlappingSlots_correct_witness :
  Forall valid [mkInterval 600 630; mkInterval 615 645; mkInterval 660 670]
  ∧ ∀ t, covered (mergeOverlappingSlots
                    [mkInterval 600 630; mkInterval 615 645;
                     mkInterval 660 670]) t
         ↔ covered [mkInterval 600 630; mkInterval 615 645;
                    mkInterval 660 670] t.
Proof.
  assert (Forall valid
            [mkInterval 600 630; mkInterval 615 645; mkInterval 660 670])
    as Hv by (repeat constructor; unfold valid; simpl; lia).
  split; [exact Hv|].
  exact (proj1 (proj2 (proj2 (proj2 (proj2
    (mergeOverlappingSlots_correct _ Hv)))))).
Defined.

End MergeCorrectness.

Section SearchRange.
Import Types FindPane.

Lemma searchStart_max range earliest :
  searchStart range earliest = Z.max (start range) earliest.
Proof. unfold searchStart. destruct (Z.ltb_spec (start range) earliest); lia. Qed.

(** The clamping example of the specification: at 2024-01-15T09:00:00Z a
    range starting at 09:10:00Z is searched from 09:30:00Z. *)
Example searchStart_clamping_example range_end :
  searchStart (mkRange 1705309800000 range_end)
    (useSchedulingStartsAt 30 1705309200000) = 1705311000000.
Proof. reflexivity. Qed.

(** A range that ends before the clamped start gets the one-week window. *)
Example searchEnd_inverted_example :
  searchEnd (mkRange 1000 2000) (searchStart (mkRange 1000 2000) 5000)
  = 5000 + 604800000.
Proof. reflexivity. Qed.

Lemma ofTime_valid (t : Z) :
  - JsDate.MAX_TIME <= t <= JsDate.MAX_TIME → JsDate.ofTime t = Some t.
Proof. intros Ht. unfold JsDate.ofTime. by rewrite decide_True. Qed.

Lemma ofTime_invalid (t : Z) :
  JsDate.MAX_TIME < t → JsDate.ofTime t = None.
Proof. intros Ht. unfold JsDate.ofTime. rewrite decide_False; [done|lia]. Qed.

Lemma searchStartDate_valid (rangeStart earliest : Z) :
  searchStartDate (Some rangeStart) (Some earliest)
  = Some (Z.max rangeStart earliest).
Proof.
  unfold searchStartDate; simpl.
  destruct (Z.ltb_spec rangeStart earliest); f_equal; lia.
Qed.

(** The time values the state machine of the pane works on are those of the
    Dates of the effect: for valid Dates and a window that ends at a valid
    Date, the two texts of the request are those of [searchStart] and
    [searchEnd]. *)
Lemma searchWindow_time_values (iso : Z → string) (range : Range)
  (earliest : Z) :
  searchStart range earliest < end_ range
  ∨ searchStart range earliest + ONE_WEEK_MS <= JsDate.MAX_TIME →
  - JsDate.MAX_TIME <= searchStart range earliest →
  - JsDate.MAX_TIME <= end_ range <= JsDate.MAX_TIME →
  searchWindow iso (Some (start range)) (Some (end_ range)) (Some earliest)
  = Some (iso (searchStart range earliest),
          iso (searchEnd range (searchStart range earliest))).
Proof.
  intros Hwin Hlo Hend.
  unfold searchWindow. rewrite searchStartDate_valid, <- searchStart_max.
  unfold searchEndDate, searchEnd; simpl.
  destruct (Z.ltb_spec (searchStart range earliest) (end_ range)); [done|].
  rewrite ofTime_valid; [done|].
  unfold ONE_WEEK_MS in *. lia.
Qed.

(** C2, as amended. For a requested range of valid Dates and a clock value
    whose earliest schedulable instant (the clock plus the 30 minutes of
    minimum notice) is a valid Date, the effective search start is the
    later of [range.start] and that instant. The effective search end is
    [range.end] when that lies strictly after the effective start.
    Otherwise it is the effective start plus exactly seven days as long as
    that is a time a Date can hold; past the last such time the end is an
    Invalid Date, [toISOString] throws and the effect makes no request. *)
Theorem search_range_effective (rangeStart rangeEnd now : Z) :
  - JsDate.MAX_TIME <= rangeStart <= JsDate.MAX_TIME →
  - JsDate.MAX_TIME <= rangeEnd <= JsDate.MAX_TIME →
  - JsDate.MAX_TIME <= useSchedulingStartsAt 30 now <= JsDate.MAX_TIME →
  ∃ effectiveStart,
    effectiveStart = Z.max rangeStart (now + 30 * 60 * 1000)
    ∧ searchStartDate (JsDate.ofTime rangeStart)
        (JsDate.ofTime (useSchedulingStartsAt 30 now))
      = Some effectiveStart
    ∧ (effectiveStart < rangeEnd →
       searchEndDate (JsDate.ofTime rangeEnd) (Some effectiveStart)
       = Some rangeEnd)
    ∧ (rangeEnd <= effectiveStart →
       effectiveStart + 7 * (24 * 60 * 60 * 1000) <= JsDate.MAX_TIME →
       searchEndDate (JsDate.ofTime rangeEnd) (Some effectiveStart)
       = Some (effectiveStart + 7 * (24 * 60 * 60 * 1000)))
    ∧ (rangeEnd <= effectiveStart →
       JsDate.MAX_TIME < effectiveStart + 7 * (24 * 60 * 60 * 1000) →
       searchEndDate (JsDate.ofTime rangeEnd) (Some effectiveStart) = None
       ∧ ∀ iso,
           searchWindow iso (JsDate.ofTime rangeStart)
             (JsDate.ofTime rangeEnd)
             (JsDate.ofTime (useSchedulingStartsAt 30 now))
           = None).
Proof.
  intros Hs He Hn.
  exists (Z.max rangeStart (now + 30 * 60 * 1000)).
  assert (searchStartDate (JsDate.ofTime rangeStart)
            (JsDate.ofTime (useSchedulingStartsAt 30 now))
          = Some (Z.max rangeStart (now + 30 * 60 * 1000))) as Hstart.
  { rewrite !ofTime_valid by done. rewrite searchStartDate_valid.
    unfold useSchedulingStartsAt. f_equal. }
  split; [done|]. split; [done|].
  rewrite (ofTime_valid rangeEnd) by done.
  unfold searchEndDate, JsDate.addMs, ONE_WEEK_MS; simpl.
  split_and!.
  - intros Hlt.
    destruct (Z.ltb_spec (Z.max rangeStart (now + 30 * 60 * 1000)) rangeEnd);
      [done|lia].
  - intros Hle Hfits.
    destruct (Z.ltb_spec (Z.max rangeStart (now + 30 * 60 * 1000)) rangeEnd);
      [lia|].
    apply ofTime_valid. unfold useSchedulingStartsAt in Hn. lia.
  - intros Hle Hpast.
    assert (JsDate.ofTime
              (Z.max rangeStart (now + 30 * 60 * 1000)
               + 7 * 24 * 60 * 60 * 1000) = None) as Hinvalid.
    { apply ofTime_invalid. lia. }
    destruct (Z.ltb_spec (Z.max rangeStart (now + 30 * 60 * 1000)) rangeEnd)
      as [Hlt|_]; [lia|].
    split; [done|].
    intros iso. unfold searchWindow. rewrite Hstart.
    unfold searchEndDate, JsDate.addMs, ONE_WEEK_MS; simpl.
    destruct (Z.ltb_spec (Z.max rangeStart (now + 30 * 60 * 1000)) rangeEnd);
      [lia|].
    by rewrite Hinvalid.
Qed.

End SearchRange.

Lemma search_range_effective_witness :
  (- JsDate.MAX_TIME <= 1705309800000 <= JsDate.MAX_TIME)
  ∧ (- JsDate.MAX_TIME <= 1705313400000 <= JsDate.MAX_TIME)
  ∧ (- JsDate.MAX_TIME <= FindPane.useSchedulingStartsAt 30 1705309200000
     <= JsDate.MAX_TIME)
  ∧ ∃ effectiveStart,
      effectiveStart = 1705311000000
      ∧ FindPane.searchStartDate (JsDate.ofTime 1705309800000)
          (JsDate.ofTime (FindPane.useSchedulingStartsAt 30 1705309200000))
        = Some effectiveStart.
Proof.
  assert (- JsDate.MAX_TIME <= 1705309800000 <= JsDate.MAX_TIME) as Hs
    by (vm_compute; split; discriminate).
  assert (- JsDate.MAX_TIME <= 1705313400000 <= JsDate.MAX_TIME) as He
    by (vm_compute; split; discriminate).
  assert (- JsDate.MAX_TIME <= FindPane.useSchedulingStartsAt 30 1705309200000
          <= JsDate.MAX_TIME) as Hn
    by (vm_compute; split; discriminate).
  split; [exact Hs|]. split; [exact He|]. split; [exact Hn|].
  destruct (search_range_effective 1705309800000 1705313400000 1705309200000
              Hs He Hn) as (effectiveStart & Heq & Hstart & _).
  exists effectiveStart. split; [exact Heq|exact Hstart].
Defined.

(** C2, as stated, fails at the end of the time a Date can hold: for a range
    that starts and ends at the last valid Date the effective end is not the
    effective start plus seven days but an Invalid Date. *)
Lemma search_range_end_counterexample :
  ¬ (∀ rangeStart rangeEnd now : Z,
       - JsDate.MAX_TIME <= rangeStart <= JsDate.MAX_TIME →
       - JsDate.MAX_TIME <= rangeEnd <= JsDate.MAX_TIME →
       - JsDate.MAX_TIME <= FindPane.useSchedulingStartsAt 30 now
         <= JsDate.MAX_TIME →
       FindPane.searchEndDate (JsDate.ofTime rangeEnd)
         (FindPane.searchStartDate (JsDate.ofTime rangeStart)
            (JsDate.ofTime (FindPane.useSchedulingStartsAt 30 now)))
       = Some (if decide (Z.max rangeStart (now + 30 * 60 * 1000) < rangeEnd)
               then rangeEnd
               else Z.max rangeStart (now + 30 * 60 * 1000)
                    + 7 * (24 * 60 * 60 * 1000))).
Proof.
  intros Hclaim.
  specialize (Hclaim JsDate.MAX_TIME JsDate.MAX_TIME 0).
  discriminate Hclaim; vm_compute; split; discriminate.
Qed.

Section BookingPartition.
Import Fhir BookAppointmentForm.

Lemma resources_app (es1 es2 : list (BundleEntry Resource)) :
  resources (mkBundle (Some (es1 ++ es2)))
  = resources (mkBundle (Some es1)) ++ resources (mkBundle (Some es2)).
Proof. unfold resources; simpl. apply omap_app. Qed.

(** The partition example of the specification: one appointment, the busy
    slot and the buffer slot, in response order. *)
Example booking_partition_example :
  let appointment :=
    mkResource "Appointment" (Some "appointment-1") None (Some "booked")
      (Some "2026-02-20T13:00:00Z") (Some "2026-02-20T13:30:00Z") in
  let busySlot :=
    mkResource "Slot" (Some "slot-1") None (Some "busy")
      (Some "2026-02-20T13:00:00Z") (Some "2026-02-20T13:30:00Z") in
  let bufferAfterSlot :=
    mkResource "Slot" (Some "slot-2") None (Some "busy-unavailable")
      (Some "2026-02-20T13:30:00Z") (Some "2026-02-01T13:45:00Z") in
  let data :=
    mkBundle (Some [mkBundleEntry (Some appointment);
                    mkBundleEntry (Some busySlot);
                    mkBundleEntry (Some bufferAfterSlot)]) in
  appointments data = [appointment] ∧ slots data = [busySlot; bufferAfterSlot].
Proof. split; reflexivity. Qed.

(** C4. For every [$book] response bundle, the appointments list holds
    exactly the Appointment resources of the bundle and the slots list
    exactly its Slot resources, each in the order of the response: both are
    subsequences of the bundle's resources, they are characterised by the
    resource type, and they are built entry by entry (the lists of a
    concatenated response are the concatenations, an entry contributes its
    resource to the list of its type and an entry without a resource
    contributes nothing; an absent [entry] field gives two empty lists). *)
Theorem booking_partition (data : Bundle Resource) :
  sublist (appointments data) (resources data)
  ∧ sublist (slots data) (resources data)
  ∧ (∀ r, r ∈ appointments data
          ↔ r ∈ resources data ∧ resourceType r = "Appointment")
  ∧ (∀ r, r ∈ slots data ↔ r ∈ resources data ∧ resourceType r = "Slot")
  ∧ (∀ r, r ∈ resources data
          ↔ ∃ es, entry data = Some es ∧ mkBundleEntry (Some r) ∈ es)
  ∧ (∀ es1 es2,
       appointments (mkBundle (Some (es1 ++ es2)))
       = appointments (mkBundle (Some es1))
         ++ appointments (mkBundle (Some es2))
       ∧ slots (mkBundle (Some (es1 ++ es2)))
         = slots (mkBundle (Some es1)) ++ slots (mkBundle (Some es2)))
  ∧ (∀ r,
       appointments (mkBundle (Some [mkBundleEntry (Some r)]))
       = (if decide (resourceType r = "Appointment") then [r] else [])
       ∧ slots (mkBundle (Some [mkBundleEntry (Some r)]))
         = (if decide (resourceType r = "Slot") then [r] else []))
  ∧ appointments (mkBundle (Some [mkBundleEntry None])) = []
  ∧ slots (mkBundle (Some [mkBundleEntry None])) = []
  ∧ appointments (mkBundle None) = []
  ∧ slots (mkBundle None) = [].
Proof.
  split_and!; try reflexivity.
  - apply sublist_filter.
  - apply sublist_filter.
  - intros r. unfold appointments. rewrite list_elem_of_filter. tauto.
  - intros r. unfold slots. rewrite list_elem_of_filter. tauto.
  - intros r. unfold resources. destruct data as [[es|]]; simpl.
    + rewrite list_elem_of_omap. split.
      * intros ([[r'|]] & Hin & Heq); simpl in Heq; [|done].
        inversion Heq; subst. eauto.
      * intros (es' & Heq & Hin). inversion Heq; subst.
        exists (mkBundleEntry (Some r)). done.
    + split; [by intros ?%elem_of_nil|]. by intros (es & ? & _).
  - intros es1 es2. unfold appointments, slots.
    by rewrite resources_app, !filter_app.
  - intros r. unfold appointments, slots, resources; simpl.
    rewrite !filter_cons, !filter_nil.
    split; repeat case_decide; done.
Qed.

End BookingPartition.

Section BookSuccessMerge.
Import Fhir SchedulePage.

(** C10. After a successful booking the page's handler puts every returned
    appointment, in order, in front of the appointments it held, and puts in
    front of the slots it held exactly the returned slots whose status is
    not ['busy'], in order; everything held before is still there, unchanged
    and in the same order. *)
Theorem handleBookSuccess_merge (results : Results) (st : State) :
  state_appointments (handleBookSuccess results st)
    = Some (appointments results ++ default [] (state_appointments st))
  ∧ ∃ shown,
      state_slots (handleBookSuccess results st)
        = Some (shown ++ default [] (state_slots st))
      ∧ sublist shown (slots results)
      ∧ (∀ s, s ∈ shown ↔ s ∈ slots results ∧ status s ≠ Some "busy")
      ∧ length shown
        = (length (slots results)
           - length (filter (λ s, status s = Some "busy") (slots results)))%nat.
Proof.
  split; [done|].
  exists (filter (λ slot, status slot ≠ Some "busy") (slots results)).
  split_and!; [done|apply sublist_filter| |].
  - intros s. rewrite list_elem_of_filter. tauto.
  - induction (slots results) as [|s l IH]; [done|].
    rewrite !filter_cons.
    assert (length (filter (λ s, status s = Some "busy") l) ≤ length l)%nat
      by apply length_filter.
    repeat case_decide; simpl; try done; lia.
Qed.

End BookSuccessMerge.

Section BookingGuard.
Import Fhir BookAppointmentForm.

Variable createReference : Resource → string.
Variable server : Resource → string → Outcome (Bundle Resource).
Variable slot : Resource.
Variable hasOnSuccess : bool.

(** C8. Submitting without a selected patient makes no call at all and
    returns nothing. With a patient, one submit makes exactly one [$book]
    request, for the slot and that patient. When the request fails, the
    error is shown to the user, [onSuccess] is not called, and the form
    stops loading; when it succeeds and [onSuccess] was passed, it is called
    once. *)
Theorem handleSubmit_book_once :
  handleSubmit createReference server slot hasOnSuccess None = ([], Returned tt)
  ∧ ∀ patient,
      filter isPost (handleSubmit createReference server slot hasOnSuccess (Some patient)).1
        = [Post (fhirUrl "Appointment" "$book") slot (createReference patient)]
      ∧ match server slot (createReference patient) with
        | Thrown error =>
            handleSubmit createReference server slot hasOnSuccess (Some patient)
            = ([SetLoading true;
                Post (fhirUrl "Appointment" "$book") slot
                  (createReference patient);
                SetLoading false;
                ShowErrorNotification error], Returned tt)
            ∧ filter isOnSuccess
                (handleSubmit createReference server slot hasOnSuccess (Some patient)).1 = []
        | Returned data =>
            (handleSubmit createReference server slot hasOnSuccess (Some patient)).2
              = Returned tt
            ∧ filter isOnSuccess
                (handleSubmit createReference server slot hasOnSuccess (Some patient)).1
              = (if hasOnSuccess
                 then [OnSuccess (appointments data) (slots data)] else [])
            ∧ ∀ error, ShowErrorNotification error
                       ∉ (handleSubmit createReference server slot hasOnSuccess
                            (Some patient)).1
        end.
Proof.
  split; [done|].
  intros patient.
  unfold handleSubmit, bookSlot, tryCatch, tryFinally, post, call.
  unfold mbind, Async_bind, mret, Async_ret. simpl.
  destruct (server slot (createReference patient)) as [data|error]; simpl.
  - destruct hasOnSuccess; simpl; split_and!; try done;
      intros error Hin;
      repeat (apply elem_of_cons in Hin as [Hin|Hin]; [discriminate|]);
      by apply elem_of_nil in Hin.
  - done.
Qed.

End BookingGuard.

Section FindQuery.
Import Fhir Types FindPane.






Variable toISOString : Z → string.

Lemma effectBody_selected (p : Pane) :
  serviceType p ≠ NoSelection →
  effectBody toISOString p
  = withSearches (searches p ++ [issued toISOString p])
      (Some (length (searches p))) p.
Proof.
  intros Hsel. unfold effectBody, issued.
  by destruct (serviceType p).
Qed.

Lemma effectBody_unselected (p : Pane) :
  serviceType p = NoSelection →
  effectBody toISOString p = withSearches (searches p) None p.
Proof. intros Hsel. unfold effectBody. by rewrite Hsel. Qed.


End FindQuery.



Section TransientIdentifier.
Import Fhir Store Scheduling.
Import SchedulingTransientIdentifier.
#[local] Open Scope nat_scope.

Lemma setIdentifier_find r sys val tag :
  ∃ k u,
    list_find (λ i, system i = Some sys)
      (default [] (identifier (setIdentifier r sys val tag)))
    = Some (k, mkIdentifier u (Some sys) (Some val))
    ∧ (∀ t, tag = Some t → u = Some t)
    ∧ (k < length (default [] (identifier r))
       → length (default [] (identifier (setIdentifier r sys val tag)))
         = length (default [] (identifier r)))
    ∧ k ≤ length (default [] (identifier r)).
Proof.
  unfold setIdentifier; simpl.
  destruct (list_find _ (default [] (identifier r))) as [[k old]|] eqn:Hfind.
  - apply list_find_Some in Hfind as (Hk & Hsys & Hleast).
    pose proof (lookup_lt_Some _ _ _ Hk) as Hlt.
    exists k, (from_option Some (use old) tag). split_and!.
    + apply list_find_Some. split_and!; [|done|].
      * by apply list_lookup_insert_eq.
      * intros j y Hj Hjk. rewrite list_lookup_insert_ne in Hj by lia.
        by eapply Hleast.
    + by intros t ->.
    + intros _. by rewrite length_insert.
    + lia.
  - exists (length (default [] (identifier r))), tag. split_and!.
    + rewrite list_find_app_r by done. simpl.
      case_decide; [|done]. simpl. do 2 f_equal.
    + by intros t ->.
    + lia.
    + done.
Qed.

Lemma getIdentifier_setIdentifier r sys val tag :
  getIdentifier (setIdentifier r sys val tag) sys = Some val.
Proof.
  destruct (setIdentifier_find r sys val tag) as (k & u & Hfind & _).
  unfold getIdentifier.
  destruct (identifier (setIdentifier r sys val tag)) as [ids|] eqn:Hids;
    simpl in *; [|done].
  by rewrite Hfind.
Qed.

(** Identifiers the resource carries under other systems stay where they
    are. *)
Lemma setIdentifier_others r sys val tag k i :
  default [] (identifier r) !! k = Some i → system i ≠ Some sys →
  default [] (identifier (setIdentifier r sys val tag)) !! k = Some i.
Proof.
  intros Hk Hsys. unfold setIdentifier; simpl.
  destruct (list_find _ (default [] (identifier r))) as [[j old]|] eqn:Hfind.
  - apply list_find_Some in Hfind as (Hj & Hold & _).
    rewrite list_lookup_insert_ne; [done|]. intros ->. congruence.
  - by apply lookup_app_l_Some.
Qed.

Lemma set_heap_eq l w :
  heap (set l w) !! l
  = (λ r, setIdentifier r MedplumSchedulingTransientIdentifierURI
            (uuid w (drawn w)) (Some "temp")) <$> heap w !! l.
Proof. unfold set, uuidv4, mutate; simpl. apply lookup_alter_eq. Qed.

Lemma set_heap_ne l l' w : l ≠ l' → heap (set l w) !! l' = heap w !! l'.
Proof. intros. unfold set, uuidv4, mutate; simpl. by apply lookup_alter_ne. Qed.

Lemma get_set_eq l w :
  is_Some (heap w !! l) → get l (set l w) = Some (uuid w (drawn w)).
Proof.
  intros [r Hr]. unfold get. rewrite set_heap_eq, Hr. simpl.
  apply getIdentifier_setIdentifier.
Qed.

Lemma get_set_ne l l' w : l ≠ l' → get l' (set l w) = get l' w.
Proof. intros. unfold get. by rewrite set_heap_ne. Qed.

Lemma set_allocated l l' w :
  is_Some (heap (set l w) !! l') ↔ is_Some (heap w !! l').
Proof.
  destruct (decide (l = l')) as [->|Hne].
  - rewrite set_heap_eq. apply fmap_is_Some.
  - by rewrite set_heap_ne.
Qed.

Lemma set_drawn l w : drawn (set l w) = S (drawn w).
Proof. reflexivity. Qed.

Lemma set_uuid l w : uuid (set l w) = uuid w.
Proof. reflexivity. Qed.

(** A run of assignments, one resource after the other. *)
Lemma foldl_set_world ls w :
  uuid (foldl (λ w l, set l w) w ls) = uuid w
  ∧ drawn (foldl (λ w l, set l w) w ls) = (drawn w + length ls)%nat
  ∧ ∀ l, is_Some (heap (foldl (λ w l, set l w) w ls) !! l)
         ↔ is_Some (heap w !! l).
Proof.
  induction ls as [|x ls IH] using rev_ind; simpl.
  - split_and!; [done|lia|done].
  - rewrite foldl_snoc, length_app. destruct IH as (Hu & Hd & Ha).
    split_and!.
    + by rewrite set_uuid.
    + rewrite set_drawn, Hd. simpl. lia.
    + intros l. by rewrite set_allocated.
Qed.

Lemma foldl_set_token ls w l :
  l ∈ ls → is_Some (heap w !! l) →
  ∃ k, (drawn w ≤ k < drawn w + length ls)%nat
       ∧ get l (foldl (λ w l, set l w) w ls) = Some (uuid w k).
Proof.
  induction ls as [|x ls IH] using rev_ind; [by intros ?%elem_of_nil|].
  intros Hin Hl. rewrite foldl_snoc, length_app. simpl.
  destruct (foldl_set_world ls w) as (Hu & Hd & Ha).
  destruct (decide (x = l)) as [->|Hne].
  - exists (drawn w + length ls)%nat. split; [lia|].
    rewrite get_set_eq by by apply Ha. by rewrite Hu, Hd.
  - apply elem_of_app in Hin as [Hin|Hin%list_elem_of_singleton]; [|done].
    destruct (IH Hin Hl) as (k & Hk & Hget). exists k. split; [lia|].
    by rewrite get_set_ne.
Qed.

Lemma foldl_set_distinct ls w l1 l2 :
  Inj (=) (=) (uuid w) →
  l1 ∈ ls → l2 ∈ ls → l1 ≠ l2 →
  is_Some (heap w !! l1) → is_Some (heap w !! l2) →
  get l1 (foldl (λ w l, set l w) w ls)
  ≠ get l2 (foldl (λ w l, set l w) w ls).
Proof.
  intros Hinj.
  induction ls as [|x ls IH] using rev_ind; [by intros ?%elem_of_nil|].
  intros H1 H2 Hne Ha1 Ha2. rewrite foldl_snoc.
  destruct (foldl_set_world ls w) as (Hu & Hd & Ha).
  assert (∀ l l', l ∈ ls ++ [x] → l' ≠ l → l' = x →
            is_Some (heap w !! l) → is_Some (heap w !! l') →
            get l (set x (foldl (λ w l, set l w) w ls))
            ≠ get l' (set x (foldl (λ w l, set l w) w ls))) as Hlast.
  { intros l l' Hin Hll -> Hal Hal'.
    apply elem_of_app in Hin as [Hin|Hin%list_elem_of_singleton]; [|done].
    rewrite (get_set_eq x) by by apply Ha.
    rewrite get_set_ne by done.
    destruct (foldl_set_token ls w l Hin Hal) as (k & Hk & ->).
    rewrite Hu, Hd. intros [= Heq]. apply Hinj in Heq. lia. }
  destruct (decide (l1 = x)) as [E1|N1]; destruct (decide (l2 = x)) as [E2|N2].
  - congruence.
  - apply not_eq_sym. by apply Hlast.
  - by apply Hlast.
  - apply elem_of_app in H1 as [H1|H1%list_elem_of_singleton]; [|done].
    apply elem_of_app in H2 as [H2|H2%list_elem_of_singleton]; [|done].
    rewrite !get_set_ne by done. by apply IH.
Qed.

Lemma setIdentifier_again r sys val tag val' tag' :
  length (default [] (identifier
            (setIdentifier (setIdentifier r sys val tag) sys val' tag')))
  = length (default [] (identifier (setIdentifier r sys val tag))).
Proof.
  destruct (setIdentifier_find r sys val tag) as (k & u & Hfind & _).
  remember (setIdentifier r sys val tag) as r1 eqn:Hr1. clear Hr1.
  unfold setIdentifier. cbv zeta. rewrite Hfind. simpl.
  by rewrite length_insert.
Qed.

(** C9. In a world where [uuidv4] never returns the same value twice, for a
    resource object [l]: after [set], [get] returns the token drawn for it,
    at every read ([get] only reads the store) and also after tokens are
    assigned to other objects; objects that were
    assigned tokens, in any sequence of assignments, carry different tokens
    when they are different objects; a second [set] on the same object
    replaces its token by the newly drawn one, in place; the token sits in
    an identifier whose [use] is ['temp'] and whose system is the transient
    identifier URI; and [set] alters neither the [id] of the object nor any
    other field nor its identifiers under other systems, nor any other
    object. A resource without identifiers has no token. *)
Theorem transient_identifier_registry (w : World) (l : loc) (r : Resource) :
  Inj (=) (=) (uuid w) →
  heap w !! l = Some r →
  get l (set l w) = Some (uuid w (drawn w))
  ∧ (∀ l', l' ≠ l → get l (set l' (set l w)) = Some (uuid w (drawn w)))
  ∧ (∀ l', l' ≠ l → is_Some (heap w !! l') →
       get l' (set l' (set l w)) = Some (uuid w (S (drawn w)))
       ∧ get l' (set l' (set l w)) ≠ get l (set l' (set l w)))
  ∧ (∀ ls l1 l2, l1 ∈ ls → l2 ∈ ls → l1 ≠ l2 →
       is_Some (heap w !! l1) → is_Some (heap w !! l2) →
       get l1 (foldl (λ w l, set l w) w ls)
       ≠ get l2 (foldl (λ w l, set l w) w ls))
  ∧ get l (set l (set l w)) = Some (uuid w (S (drawn w)))
  ∧ get l (set l (set l w)) ≠ get l (set l w)
  ∧ (∃ r1 r2,
       heap (set l w) !! l = Some r1 ∧ heap (set l (set l w)) !! l = Some r2
       ∧ length (default [] (identifier r2))
         = length (default [] (identifier r1)))
  ∧ (∃ r1 k,
       heap (set l w) !! l = Some r1
       ∧ list_find (λ i, system i = Some MedplumSchedulingTransientIdentifierURI)
           (default [] (identifier r1))
         = Some (k, mkIdentifier (Some "temp")
                      (Some MedplumSchedulingTransientIdentifierURI)
                      (Some (uuid w (drawn w)))))
  ∧ (∃ r1,
       heap (set l w) !! l = Some r1
       ∧ id r1 = id r ∧ resourceType r1 = resourceType r
       ∧ status r1 = status r
       ∧ Fhir.start r1 = Fhir.start r ∧ Fhir.end_ r1 = Fhir.end_ r
       ∧ ∀ k i, default [] (identifier r) !! k = Some i →
                system i ≠ Some MedplumSchedulingTransientIdentifierURI →
                default [] (identifier r1) !! k = Some i)
  ∧ (∀ l', l' ≠ l → heap (set l w) !! l' = heap w !! l')
  ∧ (identifier r = None → get l w = None).
Proof.
  intros Hinj Hr.
  assert (is_Some (heap w !! l)) as Hal by eauto.
  assert (is_Some (heap (set l w) !! l)) as Hal' by by apply set_allocated.
  assert (uuid w (S (drawn w)) ≠ uuid w (drawn w)) as Hfresh.
  { intros Heq. apply Hinj in Heq. lia. }
  split_and!.
  - by apply get_set_eq.
  - intros l' Hne. rewrite get_set_ne by done. by apply get_set_eq.
  - intros l' Hne Hl'.
    rewrite get_set_eq by by apply set_allocated.
    rewrite get_set_ne by done. rewrite get_set_eq by done.
    rewrite set_uuid, set_drawn. split; [done|]. congruence.
  - intros ls l1 l2. by apply foldl_set_distinct.
  - rewrite get_set_eq by done. by rewrite set_uuid, set_drawn.
  - rewrite !get_set_eq by done. rewrite set_uuid, set_drawn. congruence.
  - eexists _, _. rewrite !set_heap_eq, Hr. cbn [fmap option_fmap option_map].
    split_and!; [done..|]. apply setIdentifier_again.
  - destruct (setIdentifier_find r MedplumSchedulingTransientIdentifierURI
                (uuid w (drawn w)) (Some "temp")) as (k & u & Hfind & Hu & _).
    eexists _, k. rewrite set_heap_eq, Hr. cbn [fmap option_fmap option_map].
    split; [done|]. by rewrite Hfind, (Hu _ eq_refl).
  - eexists. rewrite set_heap_eq, Hr. cbn [fmap option_fmap option_map].
    split_and!; [done..|]. intros k i. apply setIdentifier_others.
  - intros l' Hne. by apply set_heap_ne.
  - intros Hnone. unfold get. rewrite Hr. simpl.
    unfold getIdentifier. by rewrite Hnone.
Qed.

End TransientIdentifier.

Lemma transient_identifier_registry_witness :
  Inj (=) (=) (Store.uuid Samples.world0)
  ∧ Store.heap Samples.world0 !! 0%nat = Some Samples.slot1
  ∧ SchedulingTransientIdentifier.get 0%nat
      (SchedulingTransientIdentifier.set 0%nat Samples.world0) = Some "0"
  ∧ SchedulingTransientIdentifier.get 0%nat
      (SchedulingTransientIdentifier.set 0%nat
         (SchedulingTransientIdentifier.set 0%nat Samples.world0)) = Some "1".
Proof.
  assert (Inj (=) (=) (Store.uuid Samples.world0)) as Hinj.
  { simpl. apply _. }
  split; [exact Hinj|]. split; [reflexivity|].
  destruct (transient_identifier_registry Samples.world0 0%nat Samples.slot1
              Hinj eq_refl) as (H1 & _ & _ & _ & H2 & _).
  split; [exact H1|exact H2].
Defined.

Section FindResponse.
Import Fhir Store Scheduling FindPane.
Import SchedulingTransientIdentifier.
#[local] Open Scope nat_scope.

(** The loop over the entries assigns to the resources of the entries, in
    order. *)
Lemma foldl_entries_set (entries : list (BundleEntry loc)) : ∀ w,
  foldl (λ w e, match resource e with
                | Some l => set l w
                | None => w
                end) w entries
  = foldl (λ w l, set l w) w (omap resource entries).
Proof.
  induction entries as [|[[l|]] entries IH]; intros w; simpl; [done|..].
  - apply IH.
  - apply IH.
Qed.

Lemma omap_resource_elem_of (entries : list (BundleEntry loc)) l :
  l ∈ omap resource entries ↔ mkBundleEntry (Some l) ∈ entries.
Proof.
  rewrite list_elem_of_omap. split.
  - intros ([[l'|]] & Hin & Heq); simpl in Heq; [|done]. by simplify_eq.
  - intros Hin. by exists (mkBundleEntry (Some l)).
Qed.

Lemma omap_resource_filter (entries : list (BundleEntry loc)) :
  (λ l, mkBundleEntry (Some l)) <$> omap resource entries
  = filter (λ e, is_Some (resource e)) entries.
Proof.
  induction entries as [|[[l|]] entries IH]; [done|..].
  - rewrite filter_cons_True by (simpl; eauto). simpl. by rewrite <- IH.
  - rewrite filter_cons_False by (simpl; by intros [? ?]). done.
Qed.

(** C7. When a search that was not aborted is fulfilled: a bundle without
    [entry] gives the empty slot list; a bundle with entries gives the
    resources of its entries in order, the entries without a resource being
    left out; and, the resources being objects of the store, every slot of
    the list given to [setSlots] carries a transient identifier drawn during
    the handling of this response, whether or not it carried one before. No
    error is notified. *)
Theorem find_response_slots (p : Pane) (entries : list (BundleEntry loc)) :
  (∀ l, mkBundleEntry (Some l) ∈ entries → is_Some (heap (world p) !! l)) →
  slots (onFulfilled false (mkBundle None) p) = Some []
  ∧ notifications (onFulfilled false (mkBundle None) p) = notifications p
  ∧ ∃ result,
      slots (onFulfilled false (mkBundle (Some entries)) p) = Some result
      ∧ slotUpdates (onFulfilled false (mkBundle (Some entries)) p)
        = slotUpdates p ++ [result]
      ∧ (λ l, mkBundleEntry (Some l)) <$> result
        = filter (λ e, is_Some (resource e)) entries
      ∧ (∀ l, l ∈ result ↔ mkBundleEntry (Some l) ∈ entries)
      ∧ (∀ l, l ∈ result →
           ∃ k, drawn (world p) ≤ k
                ∧ get l (world (onFulfilled false (mkBundle (Some entries)) p))
                  = Some (uuid (world p) k))
      ∧ notifications (onFulfilled false (mkBundle (Some entries)) p)
        = notifications p.
Proof.
  intros Halloc. split_and!; [done..|].
  exists (omap resource entries).
  split_and!; [done|done|apply omap_resource_filter|
               apply omap_resource_elem_of| |done].
  intros l Hin. unfold onFulfilled. cbn [entry world setSlots withWorld].
  rewrite foldl_entries_set.
  destruct (foldl_set_token (omap resource entries) (world p) l Hin)
    as (k & Hk & Hget).
  { by apply Halloc, omap_resource_elem_of. }
  exists k. split; [lia|done].
Qed.

End FindResponse.

Lemma find_response_slots_witness :
  (∀ l, Fhir.mkBundleEntry (Some l)
          ∈ [Fhir.mkBundleEntry (Some 0%nat); Fhir.mkBundleEntry None;
             Fhir.mkBundleEntry (Some 1%nat)] →
        is_Some (Store.heap (FindPane.world Samples.pane0) !! l))
  ∧ ∃ result,
      FindPane.slots
        (FindPane.onFulfilled false
           (Fhir.mkBundle
              (Some [Fhir.mkBundleEntry (Some 0%nat); Fhir.mkBundleEntry None;
                     Fhir.mkBundleEntry (Some 1%nat)]))
           Samples.pane0) = Some result
      ∧ ∀ l, l ∈ result ↔
             Fhir.mkBundleEntry (Some l)
               ∈ [Fhir.mkBundleEntry (Some 0%nat); Fhir.mkBundleEntry None;
                  Fhir.mkBundleEntry (Some 1%nat)].
Proof.
  assert (∀ l, Fhir.mkBundleEntry (Some l)
                 ∈ [Fhir.mkBundleEntry (Some 0%nat); Fhir.mkBundleEntry None;
                    Fhir.mkBundleEntry (Some 1%nat)] →
               is_Some (Store.heap (FindPane.world Samples.pane0) !! l))
    as Halloc.
  { intros l Hin.
    apply elem_of_cons in Hin as [Hin|Hin];
      [injection Hin as ->; by eexists|].
    apply elem_of_cons in Hin as [Hin|Hin]; [discriminate|].
    apply elem_of_cons in Hin as [Hin|Hin];
      [injection Hin as ->; by eexists|].
    by apply elem_of_nil in Hin. }
  split; [exact Halloc|].
  destruct (find_response_slots Samples.pane0 _ Halloc)
    as (_ & _ & result & Hres & _ & _ & Hmem & _).
  exists result. split; [exact Hres|exact Hmem].
Defined.

Section Selector.
Import Fhir Store Scheduling Types FindPane.
#[local] Open Scope nat_scope.

Variable toISOString : Z → string.

Lemma run_snoc evs ev p :
  run toISOString (evs ++ [ev]) p
  = step toISOString ev (run toISOString evs p).
Proof. unfold run. by rewrite foldl_snoc. Qed.







End Selector.


Section Cancellation.
Import Fhir Store Scheduling Types FindPane.
#[local] Open Scope nat_scope.

Variable toISOString : Z → string.

(** The handlers leave the requests and the armed cleanup alone. *)
Lemma onFulfilled_searches a b p :
  searches (onFulfilled a b p) = searches p
  ∧ armed (onFulfilled a b p) = armed p.
Proof. unfold onFulfilled. by repeat case_match. Qed.

Lemma onRejected_searches a e p :
  searches (onRejected a e p) = searches p
  ∧ armed (onRejected a e p) = armed p.
Proof. unfold onRejected. by case_match. Qed.

(** A settled or aborted search delivers nothing. *)
Lemma settle_aborted i s r p :
  searches p !! i = Some s → aborted s = true →
  slots (settle i r p) = slots p
  ∧ slotUpdates (settle i r p) = slotUpdates p
  ∧ notifications (settle i r p) = notifications p
  ∧ world (settle i r p) = world p
  ∧ serviceType (settle i r p) = serviceType p
  ∧ chosenSlot (settle i r p) = chosenSlot p
  ∧ armed (settle i r p) = armed p
  ∧ searches (settle i r p)
    = if completed s then searches p else alter complete i (searches p).
Proof.
  intros Hi Hab. unfold settle. rewrite Hi.
  destruct (completed s); [done|].
  unfold onFulfilled, onRejected. rewrite Hab. by destruct r.
Qed.

Lemma settle_fulfilled i s b p :
  searches p !! i = Some s → inFlight s →
  slots (settle i (Fulfilled b) p) = Some (delivered b)
  ∧ slotUpdates (settle i (Fulfilled b) p) = slotUpdates p ++ [delivered b]
  ∧ notifications (settle i (Fulfilled b) p) = notifications p
  ∧ armed (settle i (Fulfilled b) p) = armed p
  ∧ searches (settle i (Fulfilled b) p) = alter complete i (searches p).
Proof.
  intros Hi [Hc Ha]. unfold settle. rewrite Hi, Hc, Ha.
  unfold onFulfilled, delivered. by destruct (entry b).
Qed.

Lemma settle_rejected i s e p :
  searches p !! i = Some s → inFlight s →
  slots (settle i (Rejected e) p) = slots p
  ∧ slotUpdates (settle i (Rejected e) p) = slotUpdates p
  ∧ notifications (settle i (Rejected e) p) = notifications p ++ [e]
  ∧ armed (settle i (Rejected e) p) = armed p
  ∧ searches (settle i (Rejected e) p) = alter complete i (searches p).
Proof.
  intros Hi [Hc Ha]. unfold settle. rewrite Hi, Hc, Ha. done.
Qed.

(** After the cleanup no search is in flight. *)
Lemma effectCleanup_quiet p :
  tracked p →
  armed (effectCleanup p) = None
  ∧ ∀ i s, searches (effectCleanup p) !! i = Some s → ¬ inFlight s.
Proof.
  intros Htr. unfold effectCleanup.
  destruct (armed p) as [n|] eqn:Har; simpl.
  - split; [done|]. intros i s Hi [Hc Ha].
    destruct (decide (n = i)) as [->|Hne].
    + rewrite list_lookup_alter_eq in Hi.
      destruct (searches p !! i) as [s0|]; [|done].
      simpl in Hi. injection Hi as <-.
      destruct (completed s0) eqn:Hc0; simpl in *; congruence.
    + rewrite list_lookup_alter_ne in Hi by done.
      specialize (Htr i s Hi (conj Hc Ha)). congruence.
  - split; [done|]. intros i s Hi Hfl.
    specialize (Htr i s Hi Hfl). congruence.
Qed.

Lemma effectBody_tracked p :
  armed p = None → (∀ i s, searches p !! i = Some s → ¬ inFlight s) →
  tracked (effectBody toISOString p).
Proof.
  intros Har Hquiet.
  destruct (decide (serviceType p = NoSelection)) as [Hno|Hsel].
  - rewrite effectBody_unselected by done.
    intros i s Hi Hfl. by destruct (Hquiet i s Hi).
  - rewrite effectBody_selected by done.
    intros i s Hi Hfl. cbn [searches armed withSearches] in *.
    apply lookup_app_Some in Hi as [Hi|[Hge Hi]].
    + by destruct (Hquiet i s Hi).
    + apply list_lookup_singleton_Some in Hi as [Hi _].
      f_equal. lia.
Qed.

Lemma rerunEffect_tracked p : tracked p → tracked (rerunEffect toISOString p).
Proof.
  intros Htr. destruct (effectCleanup_quiet p Htr) as [Har Hquiet].
  by apply effectBody_tracked.
Qed.

(** [tracked] only looks at the requests and the armed cleanup. *)
Lemma tracked_same p q :
  searches q = searches p → armed q = armed p → tracked p → tracked q.
Proof. intros Hs Ha Htr i s. rewrite Hs, Ha. apply Htr. Qed.

Lemma settle_tracked i r p : tracked p → tracked (settle i r p).
Proof.
  intros Htr. unfold settle.
  destruct (searches p !! i) as [s|] eqn:Hi; [|done].
  destruct (completed s) eqn:Hc; [done|].
  assert (∀ q, searches q = searches p → armed q = armed p →
            tracked (withSearches (alter complete i (searches q)) (armed q) q))
    as Hgen.
  { intros q Hs Ha j s' Hj [Hc' Ha']. cbn [searches armed withSearches] in *.
    rewrite Hs in Hj. rewrite Ha.
    destruct (decide (i = j)) as [->|Hne].
    - rewrite list_lookup_alter_eq, Hi in Hj. simpl in Hj.
      injection Hj as <-. done.
    - rewrite list_lookup_alter_ne in Hj by done.
      by apply (Htr j s'). }
  destruct r as [b|e].
  - apply Hgen; apply onFulfilled_searches.
  - apply Hgen; apply onRejected_searches.
Qed.

Lemma step_tracked ev p : tracked p → tracked (step toISOString ev p).
Proof.
  intros Htr.
  destruct ev; unfold step, whileMounted;
    try (destruct (mounted p); [|done]).
  - repeat case_match; try done.
    unfold rerender. case_decide; [by eapply tracked_same|].
    apply rerunEffect_tracked. by eapply tracked_same.
  - case_decide; [|done].
    unfold rerender. case_decide; [by eapply tracked_same|].
    apply rerunEffect_tracked. by eapply tracked_same.
  - case_decide; [|done]. by eapply tracked_same.
  - case_decide; [|done]. by eapply tracked_same.
  - case_decide; [|done].
    unfold rerender. case_decide; [by eapply tracked_same|].
    apply rerunEffect_tracked. by eapply tracked_same.
  - apply rerunEffect_tracked. by eapply tracked_same.
  - apply rerunEffect_tracked. by eapply tracked_same.
  - by apply settle_tracked.
  - destruct (effectCleanup_quiet p Htr) as [Har Hquiet].
    intros i s Hi Hfl. by destruct (Hquiet i s Hi).
Qed.

Lemma mount_tracked sch rng e w : tracked (mount toISOString sch rng e w).
Proof. unfold mount. by apply effectBody_tracked. Qed.

Lemma run_tracked evs p : tracked p → tracked (run toISOString evs p).
Proof.
  induction evs as [|ev evs IH] using rev_ind; [done|].
  intros Htr. rewrite run_snoc. by apply step_tracked, IH.
Qed.

(** A change of range or clock while search [n] is armed and unsettled
    aborts it and issues the next search. *)
Lemma reissue_supersedes p n s ev :
  mounted p = true → serviceType p ≠ NoSelection →
  armed p = Some n → searches p !! n = Some s → completed s = false →
  reissues ev = true →
  slots (step toISOString ev p) = slots p
  ∧ slotUpdates (step toISOString ev p) = slotUpdates p
  ∧ notifications (step toISOString ev p) = notifications p
  ∧ armed (step toISOString ev p) = Some (length (searches p))
  ∧ searches (step toISOString ev p) !! n = Some (abort s)
  ∧ ∃ s', searches (step toISOString ev p) !! length (searches p) = Some s'
          ∧ inFlight s'.
Proof.
  intros Hm Hsel Har Hn Hc Hev.
  assert (n < length (searches p)) as Hlt by by eapply lookup_lt_Some.
  assert (∀ r e,
    let q := rerunEffect toISOString (withInputs r e p) in
    slots q = slots p ∧ slotUpdates q = slotUpdates p
    ∧ notifications q = notifications p
    ∧ armed q = Some (length (searches p))
    ∧ searches q !! n = Some (abort s)
    ∧ ∃ s', searches q !! length (searches p) = Some s' ∧ inFlight s')
    as Hgen.
  { intros r e. cbv zeta. unfold rerunEffect, effectCleanup.
    cbn [armed withInputs]. rewrite Har.
    rewrite effectBody_selected by done.
    cbn [slots slotUpdates notifications armed searches withSearches
         withInputs].
    rewrite length_alter.
    split_and!; [done..| |].
    - rewrite lookup_app_l by by rewrite length_alter.
      rewrite list_lookup_alter_eq, Hn. simpl. by rewrite Hc.
    - eexists. split.
      { rewrite lookup_app_r by (rewrite length_alter; lia).
        by rewrite length_alter, Nat.sub_diag. }
      by split. }
  destruct ev; try done; unfold step, whileMounted; rewrite Hm; apply Hgen.
Qed.

(** C3. Within one pane: in every reachable state only the search issued
    last can still be in flight, every earlier one being settled or
    aborted. When a second search is issued while the first is armed and
    unsettled, the two settling in either order and the first in either
    way, exactly one slot list reaches [setSlots], that of the second
    search, and no error is notified. A search torn down by the unmount
    updates nothing when it settles later. A search that was aborted
    updates no state and notifies no error however it settles, whereas the
    rejection of a search in flight notifies its error. *)
Theorem search_cancellation :
  (∀ sch rng e w evs i s,
     searches (run toISOString evs (mount toISOString sch rng e w)) !! i
       = Some s →
     inFlight s →
     armed (run toISOString evs (mount toISOString sch rng e w)) = Some i)
  ∧ (∀ p n s ev r1 b2,
       mounted p = true → serviceType p ≠ NoSelection →
       armed p = Some n → searches p !! n = Some s → completed s = false →
       reissues ev = true →
       (slotUpdates
          (settle (length (searches p)) (Fulfilled b2)
             (settle n r1 (step toISOString ev p)))
        = slotUpdates p ++ [delivered b2]
        ∧ slots
            (settle (length (searches p)) (Fulfilled b2)
               (settle n r1 (step toISOString ev p)))
          = Some (delivered b2)
        ∧ notifications
            (settle (length (searches p)) (Fulfilled b2)
               (settle n r1 (step toISOString ev p)))
          = notifications p)
       ∧ (slotUpdates
            (settle n r1
               (settle (length (searches p)) (Fulfilled b2)
                  (step toISOString ev p)))
          = slotUpdates p ++ [delivered b2]
          ∧ slots
              (settle n r1
                 (settle (length (searches p)) (Fulfilled b2)
                    (step toISOString ev p)))
            = Some (delivered b2)
          ∧ notifications
              (settle n r1
                 (settle (length (searches p)) (Fulfilled b2)
                    (step toISOString ev p)))
            = notifications p))
  ∧ (∀ p n s r,
       mounted p = true → armed p = Some n → searches p !! n = Some s →
       completed s = false →
       slots (settle n r (step toISOString Unmount p)) = slots p
       ∧ slotUpdates (settle n r (step toISOString Unmount p))
         = slotUpdates p
       ∧ notifications (settle n r (step toISOString Unmount p))
         = notifications p
       ∧ world (settle n r (step toISOString Unmount p)) = world p)
  ∧ (∀ p i s r,
       searches p !! i = Some s → aborted s = true →
       slots (settle i r p) = slots p
       ∧ slotUpdates (settle i r p) = slotUpdates p
       ∧ notifications (settle i r p) = notifications p
       ∧ world (settle i r p) = world p)
  ∧ (∀ p i s error,
       searches p !! i = Some s → inFlight s →
       notifications (settle i (Rejected error) p)
       = notifications p ++ [error]).
Proof.
  split_and!.
  - intros sch rng e w evs.
    apply (run_tracked evs), mount_tracked.
  - intros p n s ev r1 b2 Hm Hsel Har Hn Hc Hev.
    destruct (reissue_supersedes p n s ev Hm Hsel Har Hn Hc Hev)
      as (Hsl & Hup & Hno & _ & Hn2 & s' & Hm2 & Hfl).
    assert (n ≠ length (searches p)) as Hne.
    { apply lookup_lt_Some in Hn. lia. }
    set (p2 := step toISOString ev p) in *.
    split.
    + destruct (settle_aborted n (abort s) r1 p2 Hn2 eq_refl)
        as (_ & Hup1 & Hno1 & _ & _ & _ & _ & Hse1).
      cbn [completed abort] in Hse1. rewrite Hc in Hse1.
      assert (searches (settle n r1 p2) !! length (searches p) = Some s')
        as Hm3.
      { by rewrite Hse1, list_lookup_alter_ne. }
      destruct (settle_fulfilled _ s' b2 _ Hm3 Hfl)
        as (Hsl2 & Hup2 & Hno2 & _).
      rewrite Hsl2, Hup2, Hno2, Hup1, Hno1, Hup, Hno. done.
    + destruct (settle_fulfilled _ s' b2 p2 Hm2 Hfl)
        as (Hsl1 & Hup1 & Hno1 & _ & Hse1).
      assert (searches (settle (length (searches p)) (Fulfilled b2) p2) !! n
              = Some (abort s)) as Hn3.
      { rewrite Hse1, list_lookup_alter_ne; [done|]. by apply not_eq_sym. }
      destruct (settle_aborted n (abort s) r1 _ Hn3 eq_refl)
        as (Hsl2 & Hup2 & Hno2 & _).
      rewrite Hsl2, Hup2, Hno2, Hsl1, Hup1, Hno1, Hup, Hno. done.
  - intros p n s r Hm Har Hn Hc.
    assert (searches (step toISOString Unmount p) !! n = Some (abort s))
      as Hn2.
    { unfold step, whileMounted. rewrite Hm. unfold effectCleanup.
      rewrite Har. cbn [searches withSearches withMounted].
      rewrite list_lookup_alter_eq, Hn. simpl. by rewrite Hc. }
    destruct (settle_aborted n (abort s) r _ Hn2 eq_refl)
      as (Hsl & Hup & Hno & Hw & _).
    rewrite Hsl, Hup, Hno, Hw.
    unfold step, whileMounted. rewrite Hm. unfold effectCleanup.
    rewrite Har. done.
  - intros p i s r Hi Hab.
    destruct (settle_aborted i s r p Hi Hab) as (? & ? & ? & ? & _). done.
  - intros p i s error Hi Hfl.
    by destruct (settle_rejected i s error p Hi Hfl) as (_ & _ & ? & _).
Qed.

End Cancellation.

Lemma search_cancellation_witness :
  FindPane.slotUpdates
    (FindPane.settle 0%nat (FindPane.Fulfilled Samples.bundle1)
       (FindPane.settle 1%nat (FindPane.Fulfilled Samples.bundle2)
          (FindPane.step Samples.isoStub
             (FindPane.RangeChange (Types.mkRange 1705881600000 1706486399000))
             Samples.pane1)))
  = [[1%nat]].
Proof.
  destruct (search_cancellation Samples.isoStub) as (_ & Hsecond & _).
  destruct (Hsecond Samples.pane1 0%nat
              (FindPane.issued Samples.isoStub
                 (FindPane.setServiceType
                    (FindPane.Specific Samples.serviceType1) Samples.pane1))
              (FindPane.RangeChange (Types.mkRange 1705881600000 1706486399000))
              (FindPane.Fulfilled Samples.bundle1) Samples.bundle2
              eq_refl ltac:(discriminate) eq_refl eq_refl eq_refl eq_refl)
    as (_ & Hswapped & _).
  exact Hswapped.
Defined.

(** * Further properties of the code *)

Section SearchWindow.
Import Types FindPane.

(** X1. Whatever Dates the range and the earliest schedulable instant are,
    valid or not: when the effect gets to compute the two texts of its
    window, they are those of a valid start and a valid end, the start lies
    strictly before the end (the window is never empty or inverted), the
    start is no earlier than [range.start] and than the earliest
    schedulable instant, and the end is no earlier than [range.end],
    wherever those are valid. *)
Theorem search_window_well_formed (iso : Z → string)
  (rangeStart rangeEnd earliest : JsDate.Date) (start end_ : string) :
  searchWindow iso rangeStart rangeEnd earliest = Some (start, end_) →
  ∃ s e,
    searchStartDate rangeStart earliest = Some s
    ∧ searchEndDate rangeEnd (Some s) = Some e
    ∧ start = iso s ∧ end_ = iso e
    ∧ s < e
    ∧ rangeStart ≠ None
    ∧ (∀ t, rangeStart = Some t → t <= s)
    ∧ (∀ t, earliest = Some t → t <= s)
    ∧ (∀ t, rangeEnd = Some t → t <= e)
    ∧ (e = s + ONE_WEEK_MS ∨ rangeEnd = Some e).
Proof.
  unfold searchWindow.
  destruct (searchStartDate rangeStart earliest) as [s|] eqn:Hs; [|done].
  destruct (searchEndDate rangeEnd (Some s)) as [e|] eqn:He; [|done].
  simpl. intros [= <- <-]. exists s, e.
  assert (rangeStart ≠ None ∧ (∀ t, rangeStart = Some t → t <= s)
          ∧ (∀ t, earliest = Some t → t <= s)) as (Hvalid & Hrs & Hea).
  { unfold searchStartDate in Hs.
    destruct rangeStart as [a|], earliest as [b|]; simpl in Hs;
      try discriminate.
    - destruct (Z.ltb_spec a b); injection Hs as <-;
        (split; [done|]); split; intros t [= <-]; lia.
    - injection Hs as <-.
      split; [done|]. split; [intros t [= <-]; lia|done]. }
  assert (s < e ∧ (∀ t, rangeEnd = Some t → t <= e)
          ∧ (e = s + ONE_WEEK_MS ∨ rangeEnd = Some e)) as (Hlt & Hre & Hor).
  { unfold searchEndDate, JsDate.addMs, JsDate.ofTime in He.
    destruct rangeEnd as [c|]; simpl in He.
    - destruct (Z.ltb_spec s c).
      + injection He as <-. split; [done|].
        split; [intros t [= <-]; lia|by right].
      + case_decide; [|done]. injection He as <-.
        unfold ONE_WEEK_MS.
        split; [lia|]. split; [intros t [= <-]; lia|by left].
    - case_decide; [|done]. injection He as <-.
      unfold ONE_WEEK_MS. split; [lia|]. split; [done|by left]. }
  by split_and!.
Qed.

End SearchWindow.

Lemma search_window_well_formed_witness :
  FindPane.searchWindow Samples.isoStub (Some 5000) (Some 2000) None
    = Some (Samples.isoStub 5000, Samples.isoStub 604805000)
  ∧ ∃ s e,
      FindPane.searchStartDate (Some 5000) None = Some s
      ∧ FindPane.searchEndDate (Some 2000) (Some s) = Some e
      ∧ s < e.
Proof.
  assert (FindPane.searchWindow Samples.isoStub (Some 5000) (Some 2000) None
          = Some (Samples.isoStub 5000, Samples.isoStub 604805000)) as Hw
    by reflexivity.
  split; [exact Hw|].
  destruct (search_window_well_formed Samples.isoStub (Some 5000) (Some 2000)
              None _ _ Hw) as (s & e & Hs & He & _ & _ & Hlt & _).
  by exists s, e.
Defined.

Section RequestLog.
Import Fhir Store Scheduling Types FindPane FindPaneLog.
#[local] Open Scope nat_scope.

Variable toISOString : Z → string.

Lemma evolves_refl s : evolves s s.
Proof. by repeat split. Qed.

Lemma evolves_trans s1 s2 s3 : evolves s1 s2 → evolves s2 s3 → evolves s1 s3.
Proof.
  intros (Hi & Hp & Ha & Hc) (Hi' & Hp' & Ha' & Hc').
  split_and!; [congruence|congruence|auto|auto].
Qed.

Lemma extends_refl ss : extends ss ss.
Proof. intros i s Hi. exists s. split; [done|apply evolves_refl]. Qed.

Lemma extends_trans ss1 ss2 ss3 :
  extends ss1 ss2 → extends ss2 ss3 → extends ss1 ss3.
Proof.
  intros H12 H23 i s Hi.
  destruct (H12 i s Hi) as (s2 & Hi2 & He2).
  destruct (H23 i s2 Hi2) as (s3 & Hi3 & He3).
  exists s3. split; [done|]. by eapply evolves_trans.
Qed.

Lemma extends_alter (f : Search → Search) n ss :
  (∀ s, evolves s (f s)) → extends ss (alter f n ss).
Proof.
  intros Hf i s Hi. destruct (decide (n = i)) as [->|Hne].
  - exists (f s). rewrite list_lookup_alter_eq, Hi. split; [done|apply Hf].
  - exists s. rewrite list_lookup_alter_ne by done.
    split; [done|apply evolves_refl].
Qed.

Lemma extends_app ss new : extends ss (ss ++ new).
Proof.
  intros i s Hi. exists s. split; [|apply evolves_refl].
  by apply lookup_app_l_Some.
Qed.

Lemma effectCleanup_log p :
  extends (searches p) (searches (effectCleanup p))
  ∧ length (searches (effectCleanup p)) = length (searches p).
Proof.
  unfold effectCleanup. destruct (armed p); [|split; [apply extends_refl|done]].
  cbn [searches withSearches]. split; [|by rewrite length_alter].
  apply extends_alter. intros s.
  destruct (completed s) eqn:Hc; [apply evolves_refl|].
  unfold evolves, abort; simpl. by rewrite Hc.
Qed.

Lemma effectBody_log p :
  extends (searches p) (searches (effectBody toISOString p))
  ∧ length (searches p) ≤ length (searches (effectBody toISOString p))
    ≤ S (length (searches p)).
Proof.
  destruct (decide (serviceType p = NoSelection)) as [Hno|Hsel].
  - rewrite effectBody_unselected by done. cbn [searches withSearches].
    split; [apply extends_refl|lia].
  - rewrite effectBody_selected by done. cbn [searches withSearches].
    split; [apply extends_app|]. rewrite length_app. simpl. lia.
Qed.

Lemma rerunEffect_log p :
  extends (searches p) (searches (rerunEffect toISOString p))
  ∧ length (searches p) ≤ length (searches (rerunEffect toISOString p))
    ≤ S (length (searches p)).
Proof.
  unfold rerunEffect.
  destruct (effectCleanup_log p) as [He Hl].
  destruct (effectBody_log (effectCleanup p)) as [He' Hl'].
  split; [by eapply extends_trans|lia].
Qed.

Lemma settle_log i r p :
  extends (searches p) (searches (settle i r p))
  ∧ length (searches (settle i r p)) = length (searches p).
Proof.
  unfold settle. destruct (searches p !! i) as [s|];
    [|split; [apply extends_refl|done]].
  destruct (completed s); [split; [apply extends_refl|done]|].
  assert (∀ q, searches q = searches p →
    extends (searches p)
      (searches (withSearches (alter complete i (searches q)) (armed q) q))
    ∧ length (searches (withSearches (alter complete i (searches q))
                          (armed q) q)) = length (searches p)) as Hgen.
  { intros q Hq. cbn [searches withSearches]. rewrite Hq.
    split; [|by rewrite length_alter].
    apply extends_alter. intros s'. by unfold evolves, complete. }
  destruct r; apply Hgen.
  - apply onFulfilled_searches.
  - apply onRejected_searches.
Qed.

Lemma step_log ev p :
  extends (searches p) (searches (step toISOString ev p))
  ∧ length (searches p) ≤ length (searches (step toISOString ev p))
    ≤ S (length (searches p)).
Proof.
  assert (extends (searches p) (searches p)
          ∧ length (searches p) ≤ length (searches p) ≤ S (length (searches p)))
    as Hsame by (split; [apply extends_refl|lia]).
  assert (∀ old q, searches q = searches p →
    extends (searches p) (searches (rerender toISOString old q))
    ∧ length (searches p) ≤ length (searches (rerender toISOString old q))
      ≤ S (length (searches p))) as Hrender.
  { intros old q Hq. unfold rerender. case_decide; [by rewrite Hq|].
    rewrite <- Hq. apply rerunEffect_log. }
  destruct ev; unfold step, whileMounted;
    try (destruct (mounted p); [|done]).
  - repeat case_match; try done. by apply Hrender.
  - case_decide; [|done]. by apply Hrender.
  - by case_decide.
  - by case_decide.
  - case_decide; [|done]. by apply Hrender.
  - apply (rerunEffect_log (withInputs r (earliestSchedulable p) p)).
  - apply (rerunEffect_log (withInputs (range p) e p)).
  - destruct (settle_log i r p) as [He Hl]. split; [done|lia].
  - destruct (effectCleanup_log p) as [He Hl].
    cbn [searches withMounted]. split; [done|lia].
Qed.

(** X2. The request log of a pane only grows, by at most one request per
    event: whatever happens to the pane, a request that was issued stays at
    its place with the query it was issued with, a request that was aborted
    stays aborted and a request that has settled stays settled. *)
Theorem request_log_grows (evs : list Event) (p : Pane) :
  extends (searches p) (searches (run toISOString evs p))
  ∧ length (searches p) ≤ length (searches (run toISOString evs p))
    ≤ length (searches p) + length evs.
Proof.
  induction evs as [|ev evs IH] using rev_ind.
  - split; [apply extends_refl|simpl; lia].
  - rewrite run_snoc, length_app. simpl.
    destruct IH as [He Hl].
    destruct (step_log ev (run toISOString evs p)) as [He' Hl'].
    split; [by eapply extends_trans|lia].
Qed.

End RequestLog.

Section Silence.
Import Fhir Store Scheduling Types FindPane FindPaneLog.
#[local] Open Scope nat_scope.

Variable toISOString : Z → string.

Lemma effectBody_fields p :
  serviceType (effectBody toISOString p) = serviceType p
  ∧ mounted (effectBody toISOString p) = mounted p
  ∧ slots (effectBody toISOString p) = slots p
  ∧ chosenSlot (effectBody toISOString p) = chosenSlot p
  ∧ notifications (effectBody toISOString p) = notifications p
  ∧ slotUpdates (effectBody toISOString p) = slotUpdates p
  ∧ onSuccessCalls (effectBody toISOString p) = onSuccessCalls p
  ∧ world (effectBody toISOString p) = world p
  ∧ (armed (effectBody toISOString p) = None ↔ serviceType p = NoSelection).
Proof.
  destruct (decide (serviceType p = NoSelection)) as [Hno|Hsel].
  - rewrite effectBody_unselected by done. by split_and!.
  - rewrite effectBody_selected by done. by split_and!.
Qed.

Lemma effectCleanup_fields p :
  serviceType (effectCleanup p) = serviceType p
  ∧ mounted (effectCleanup p) = mounted p
  ∧ slots (effectCleanup p) = slots p
  ∧ chosenSlot (effectCleanup p) = chosenSlot p
  ∧ notifications (effectCleanup p) = notifications p
  ∧ slotUpdates (effectCleanup p) = slotUpdates p
  ∧ onSuccessCalls (effectCleanup p) = onSuccessCalls p
  ∧ world (effectCleanup p) = world p
  ∧ armed (effectCleanup p) = None.
Proof. unfold effectCleanup. by destruct (armed p) eqn:Ha. Qed.

Lemma rerunEffect_fields p :
  serviceType (rerunEffect toISOString p) = serviceType p
  ∧ mounted (rerunEffect toISOString p) = mounted p
  ∧ slots (rerunEffect toISOString p) = slots p
  ∧ chosenSlot (rerunEffect toISOString p) = chosenSlot p
  ∧ notifications (rerunEffect toISOString p) = notifications p
  ∧ slotUpdates (rerunEffect toISOString p) = slotUpdates p
  ∧ onSuccessCalls (rerunEffect toISOString p) = onSuccessCalls p
  ∧ world (rerunEffect toISOString p) = world p
  ∧ (armed (rerunEffect toISOString p) = None ↔ serviceType p = NoSelection).
Proof.
  unfold rerunEffect.
  destruct (effectCleanup_fields p) as (E1 & E2 & E3 & E4 & E5 & E6 & E7 & E8 & _).
  destruct (effectBody_fields (effectCleanup p))
    as (B1 & B2 & B3 & B4 & B5 & B6 & B7 & B8 & B9).
  rewrite B1, B2, B3, B4, B5, B6, B7, B8, B9.
  by rewrite E1, E2, E3, E4, E5, E6, E7, E8.
Qed.

Lemma rerunEffect_disarmed p : mounted p = true → disarmed (rerunEffect toISOString p).
Proof.
  intros Hm. destruct (rerunEffect_fields p) as (F1 & F2 & _ & _ & _ & _ & _ & _ & F9).
  split.
  - rewrite F1. apply F9.
  - rewrite F2, Hm. done.
Qed.

Lemma rerender_disarmed old p q :
  disarmed p → mounted p = true → serviceType p = old →
  mounted q = true → armed q = armed p →
  disarmed (rerender toISOString old q).
Proof.
  intros [Hno Hgone] Hm Hold Hmq Harm. unfold rerender.
  case_decide as Hsame; [|by apply rerunEffect_disarmed].
  split.
  - intros Hq. rewrite Harm. apply Hno. congruence.
  - rewrite Hmq. done.
Qed.

Lemma settle_fields i r p :
  serviceType (settle i r p) = serviceType p
  ∧ mounted (settle i r p) = mounted p
  ∧ armed (settle i r p) = armed p
  ∧ chosenSlot (settle i r p) = chosenSlot p
  ∧ onSuccessCalls (settle i r p) = onSuccessCalls p.
Proof.
  unfold settle. destruct (searches p !! i) as [s|]; [|done].
  destruct (completed s); [done|].
  unfold onFulfilled, onRejected.
  destruct r as [b|e]; destruct (aborted s); try done.
  by destruct (entry b).
Qed.

Lemma step_disarmed ev p : disarmed p → disarmed (step toISOString ev p).
Proof.
  intros Hd. pose proof Hd as [Hno Hgone].
  destruct ev; unfold step, whileMounted;
    try (destruct (mounted p) eqn:Hm; [|done]).
  - repeat case_match; try done. by eapply rerender_disarmed.
  - case_decide; [|done]. by eapply rerender_disarmed.
  - case_decide; [|done]. done.
  - case_decide; [|done]. done.
  - case_decide; [|done]. by eapply rerender_disarmed.
  - by apply rerunEffect_disarmed.
  - by apply rerunEffect_disarmed.
  - destruct (settle_fields i r p) as (F1 & F2 & F3 & _).
    split; rewrite ?F1, ?F2, F3; done.
  - destruct (effectCleanup_fields p) as (_ & _ & _ & _ & _ & _ & _ & _ & F9).
    split; intros _; exact F9.
Qed.

Lemma mount_disarmed sch rng e w : disarmed (mount toISOString sch rng e w).
Proof.
  unfold mount.
  match goal with |- disarmed (effectBody _ ?q) =>
    destruct (effectBody_fields q) as (F1 & F2 & _ & _ & _ & _ & _ & _ & F9)
  end.
  split.
  - rewrite F1. apply F9.
  - rewrite F2. done.
Qed.

Lemma run_disarmed evs p : disarmed p → disarmed (run toISOString evs p).
Proof.
  induction evs as [|ev evs IH] using rev_ind; [done|].
  intros Hd. rewrite run_snoc. by apply step_disarmed, IH.
Qed.

(** With no cleanup armed, no response has any effect. *)
Lemma settle_unarmed i r p :
  tracked p → armed p = None →
  slots (settle i r p) = slots p
  ∧ slotUpdates (settle i r p) = slotUpdates p
  ∧ notifications (settle i r p) = notifications p
  ∧ world (settle i r p) = world p.
Proof.
  intros Htr Har.
  destruct (searches p !! i) as [s|] eqn:Hi.
  - destruct (aborted s) eqn:Hab.
    + destruct (settle_aborted i s r p Hi Hab) as (? & ? & ? & ? & _). done.
    + destruct (completed s) eqn:Hc.
      * unfold settle. by rewrite Hi, Hc.
      * specialize (Htr i s Hi (conj Hc Hab)). congruence.
  - unfold settle. by rewrite Hi.
Qed.

(** X3. In every state a pane can reach, while nothing is selected or once
    the pane is unmounted, no response of any search, of whatever kind and
    however late, changes the slot list, the resource objects or the
    notifications. *)
Theorem unselected_pane_is_silent (sch : Schedule) (rng : Range) (e : Z)
  (w : World) (evs : list Event) (i : nat) (r : Response) :
  serviceType (run toISOString evs (mount toISOString sch rng e w))
    = NoSelection
  ∨ mounted (run toISOString evs (mount toISOString sch rng e w)) = false →
  slots (settle i r (run toISOString evs (mount toISOString sch rng e w)))
    = slots (run toISOString evs (mount toISOString sch rng e w))
  ∧ slotUpdates
      (settle i r (run toISOString evs (mount toISOString sch rng e w)))
    = slotUpdates (run toISOString evs (mount toISOString sch rng e w))
  ∧ notifications
      (settle i r (run toISOString evs (mount toISOString sch rng e w)))
    = notifications (run toISOString evs (mount toISOString sch rng e w))
  ∧ world (settle i r (run toISOString evs (mount toISOString sch rng e w)))
    = world (run toISOString evs (mount toISOString sch rng e w)).
Proof.
  intros Hidle.
  apply settle_unarmed.
  - apply run_tracked, mount_tracked.
  - destruct (run_disarmed evs _ (mount_disarmed sch rng e w)) as [Hno Hgone].
    destruct Hidle; auto.
Qed.

End Silence.

Lemma unselected_pane_is_silent_witness :
  (FindPane.serviceType
     (FindPane.run Samples.isoStub
        [FindPane.SelectServiceType 0; FindPane.Dismiss] Samples.pane0)
   = FindPane.NoSelection
   ∨ FindPane.mounted
       (FindPane.run Samples.isoStub
          [FindPane.SelectServiceType 0; FindPane.Dismiss] Samples.pane0)
     = false)
  ∧ FindPane.slots
      (FindPane.settle 0 (FindPane.Fulfilled Samples.bundle1)
         (FindPane.run Samples.isoStub
            [FindPane.SelectServiceType 0; FindPane.Dismiss] Samples.pane0))
    = Some [].
Proof.
  split; [by left|].
  exact (proj1 (unselected_pane_is_silent Samples.isoStub
                  (Samples.createScheduleWithServiceTypes
                     [Some Samples.serviceType1; Some Samples.serviceType2])
                  Samples.defaultRange
                  (FindPane.useSchedulingStartsAt 30 1705309200000)
                  Samples.world0
                  [FindPane.SelectServiceType 0; FindPane.Dismiss]
                  0%nat (FindPane.Fulfilled Samples.bundle1)
                  (or_introl eq_refl))).
Defined.

Section LeavingTheSelection.
Import Fhir Store Scheduling Types FindPane FindPaneLog.
#[local] Open Scope nat_scope.

Variable toISOString : Z → string.
Variables (sch : Schedule) (rng : Range) (e : Z) (w : World).
Variable evs : list Event.

#[local] Abbreviation reached :=
  (run toISOString evs (mount toISOString sch rng e w)).

(** What holds after the selection was cleared by a handler that leaves the
    requests alone. *)
Lemma cleared_selection_quiet p h :
  tracked p → disarmed p → mounted p = true →
  searches h = searches p → armed h = armed p → mounted h = true →
  serviceType h = NoSelection →
  serviceType (rerender toISOString (serviceType p) h) = NoSelection
  ∧ slots (rerender toISOString (serviceType p) h) = slots h
  ∧ chosenSlot (rerender toISOString (serviceType p) h) = chosenSlot h
  ∧ slotUpdates (rerender toISOString (serviceType p) h) = slotUpdates h
  ∧ notifications (rerender toISOString (serviceType p) h) = notifications h
  ∧ onSuccessCalls (rerender toISOString (serviceType p) h)
    = onSuccessCalls h
  ∧ length (searches (rerender toISOString (serviceType p) h))
    = length (searches p)
  ∧ armed (rerender toISOString (serviceType p) h) = None
  ∧ ∀ i s, searches (rerender toISOString (serviceType p) h) !! i = Some s →
           ¬ inFlight s.
Proof.
  intros Htr [Hno Hgone] Hm Hse Har Hmh Hsel.
  assert (tracked h) as Htrh by by eapply tracked_same.
  unfold rerender. case_decide as Hsame.
  - assert (armed h = None) as Hnone.
    { rewrite Har. apply Hno. congruence. }
    split_and!; try done; [by rewrite Hse|].
    intros i s Hi Hfl. specialize (Htrh i s Hi Hfl). congruence.
  - destruct (rerunEffect_fields toISOString h)
      as (F1 & _ & F3 & F4 & F5 & F6 & F7 & _ & F9).
    destruct (effectCleanup_quiet h Htrh) as [Hq1 Hq2].
    destruct (effectCleanup_log h) as [_ Hlen].
    destruct (effectCleanup_fields h) as (C1 & _).
    assert (searches (rerunEffect toISOString h) = searches (effectCleanup h))
      as Hsame'.
    { unfold rerunEffect. rewrite effectBody_unselected by congruence. done. }
    split_and!; try congruence.
    + by apply F9.
    + intros i s. rewrite Hsame'. apply Hq2.
Qed.

(** X4. In every state a pane can reach while mounted and showing the
    booking form, a successful booking hands the results to [onSuccess]
    once and takes the pane back to the list of service types, also when
    the schedule has a single service type: nothing is selected, the slot
    list is empty, no slot is chosen, no search is issued, and no search is
    left in flight. *)
Theorem book_success_resets_pane (results : BookResults) :
  mounted reached = true → chosenSlot reached ≠ None →
  serviceType (step toISOString (BookSuccess results) reached) = NoSelection
  ∧ view (step toISOString (BookSuccess results) reached) = ServiceTypeList
  ∧ slots (step toISOString (BookSuccess results) reached) = Some []
  ∧ chosenSlot (step toISOString (BookSuccess results) reached) = None
  ∧ onSuccessCalls (step toISOString (BookSuccess results) reached)
    = onSuccessCalls reached ++ [results]
  ∧ notifications (step toISOString (BookSuccess results) reached)
    = notifications reached
  ∧ length (searches (step toISOString (BookSuccess results) reached))
    = length (searches reached)
  ∧ armed (step toISOString (BookSuccess results) reached) = None
  ∧ ∀ i s,
      searches (step toISOString (BookSuccess results) reached) !! i = Some s →
      ¬ inFlight s.
Proof.
  intros Hm Hch.
  pose proof (run_tracked toISOString evs _ (mount_tracked toISOString sch rng e w))
    as Htr.
  pose proof (run_disarmed toISOString evs _
                (mount_disarmed toISOString sch rng e w)) as Hd.
  assert (view reached = BookingForm) as Hview.
  { unfold view. by destruct (chosenSlot reached). }
  unfold step, whileMounted. rewrite Hm, decide_True by done.
  destruct (cleared_selection_quiet reached (handleBookSuccess results reached)
              Htr Hd Hm eq_refl eq_refl Hm eq_refl)
    as (H1 & H2 & H3 & H4 & H5 & H6 & H7 & H8 & H9).
  split_and!; try done.
  unfold view. by rewrite H3, H1.
Qed.

(** X5. In every state a pane can reach while mounted and showing the slot
    list: with a single service type the selection cannot be dismissed
    (the event changes nothing); with several, dismissing clears the
    selection, empties the slot list, issues no search and leaves no search
    in flight, and notifies nothing. *)
Theorem dismiss_clears_selection :
  mounted reached = true → view reached = SlotList →
  if decide (1 < length (serviceTypes reached))
  then
    serviceType (step toISOString Dismiss reached) = NoSelection
    ∧ slots (step toISOString Dismiss reached) = Some []
    ∧ slotUpdates (step toISOString Dismiss reached)
      = slotUpdates reached ++ [[]]
    ∧ notifications (step toISOString Dismiss reached)
      = notifications reached
    ∧ length (searches (step toISOString Dismiss reached))
      = length (searches reached)
    ∧ armed (step toISOString Dismiss reached) = None
    ∧ ∀ i s, searches (step toISOString Dismiss reached) !! i = Some s →
             ¬ inFlight s
  else step toISOString Dismiss reached = reached.
Proof.
  intros Hm Hview.
  pose proof (run_tracked toISOString evs _ (mount_tracked toISOString sch rng e w))
    as Htr.
  pose proof (run_disarmed toISOString evs _
                (mount_disarmed toISOString sch rng e w)) as Hd.
  unfold step, whileMounted. rewrite Hm.
  case_decide as Hmany.
  - rewrite decide_True by done.
    destruct (cleared_selection_quiet reached (handleDismiss reached)
                Htr Hd Hm eq_refl eq_refl Hm eq_refl)
      as (H1 & H2 & H3 & H4 & H5 & H6 & H7 & H8 & H9).
    split_and!; done.
  - rewrite decide_False; [done|]. by intros [_ ?].
Qed.

End LeavingTheSelection.

Lemma book_success_resets_pane_witness :
  FindPane.mounted
    (FindPane.run Samples.isoStub
       [FindPane.Settle 0 (FindPane.Fulfilled Samples.bundle1);
        FindPane.ChooseSlot 0%nat] Samples.pane1) = true
  ∧ FindPane.chosenSlot
      (FindPane.run Samples.isoStub
         [FindPane.Settle 0 (FindPane.Fulfilled Samples.bundle1);
          FindPane.ChooseSlot 0%nat] Samples.pane1) ≠ None
  ∧ FindPane.serviceType
      (FindPane.step Samples.isoStub
         (FindPane.BookSuccess (FindPane.mkBookResults [] [0%nat]))
         (FindPane.run Samples.isoStub
            [FindPane.Settle 0 (FindPane.Fulfilled Samples.bundle1);
             FindPane.ChooseSlot 0%nat] Samples.pane1))
    = FindPane.NoSelection.
Proof.
  assert (FindPane.chosenSlot
            (FindPane.run Samples.isoStub
               [FindPane.Settle 0 (FindPane.Fulfilled Samples.bundle1);
                FindPane.ChooseSlot 0%nat] Samples.pane1) ≠ None) as Hch.
  { vm_compute. discriminate. }
  split; [reflexivity|]. split; [exact Hch|].
  exact (proj1 (book_success_resets_pane Samples.isoStub
                  (Samples.createScheduleWithServiceTypes
                     [Some Samples.serviceType1])
                  Samples.defaultRange
                  (FindPane.useSchedulingStartsAt 30 1705309200000)
                  Samples.world0
                  [FindPane.Settle 0 (FindPane.Fulfilled Samples.bundle1);
                   FindPane.ChooseSlot 0%nat]
                  (FindPane.mkBookResults [] [0%nat]) eq_refl Hch)).
Defined.

Lemma dismiss_clears_selection_witness :
  FindPane.mounted
    (FindPane.run Samples.isoStub [FindPane.SelectServiceType 0] Samples.pane0)
  = true
  ∧ FindPane.view
      (FindPane.run Samples.isoStub [FindPane.SelectServiceType 0]
         Samples.pane0) = FindPane.SlotList
  ∧ FindPane.serviceType
      (FindPane.step Samples.isoStub FindPane.Dismiss
         (FindPane.run Samples.isoStub [FindPane.SelectServiceType 0]
            Samples.pane0)) = FindPane.NoSelection.
Proof.
  split; [reflexivity|]. split; [reflexivity|].
  pose proof (dismiss_clears_selection Samples.isoStub
                (Samples.createScheduleWithServiceTypes
                   [Some Samples.serviceType1; Some Samples.serviceType2])
                Samples.defaultRange
                (FindPane.useSchedulingStartsAt 30 1705309200000)
                Samples.world0 [FindPane.SelectServiceType 0]
                eq_refl eq_refl) as Hdismiss.
  rewrite decide_True in Hdismiss by (simpl; lia).
  exact (proj1 Hdismiss).
Defined.

Section SlotKeys.
Import Fhir Store Scheduling FindPane.
Import SchedulingTransientIdentifier.
#[local] Open Scope nat_scope.

Lemma foldl_set_frame ls w l :
  l ∉ ls → heap (foldl (λ w l, set l w) w ls) !! l = heap w !! l.
Proof.
  induction ls as [|x ls IH] using rev_ind; [done|].
  intros Hnin. rewrite foldl_snoc.
  apply not_elem_of_app in Hnin as [Hls Hx].
  rewrite set_heap_ne; [by apply IH|].
  intros ->. apply Hx. by apply list_elem_of_singleton.
Qed.

(** A run of assignments only touches identifiers. *)
Lemma foldl_set_fields ls : ∀ w l r,
  heap w !! l = Some r →
  ∃ r', heap (foldl (λ w l, set l w) w ls) !! l = Some r'
        ∧ id r' = id r ∧ resourceType r' = resourceType r
        ∧ status r' = status r
        ∧ Fhir.start r' = Fhir.start r ∧ Fhir.end_ r' = Fhir.end_ r.
Proof.
  induction ls as [|x ls IH] using rev_ind; intros w l r Hr.
  - exists r. by split_and!.
  - rewrite foldl_snoc.
    destruct (IH w l r Hr) as (r1 & Hr1 & Hid & Hty & Hst & Hs & He).
    destruct (decide (x = l)) as [->|Hne].
    + eexists. rewrite set_heap_eq, Hr1. simpl. split; [done|].
      by split_and!.
    + exists r1. rewrite set_heap_ne by done. by split_and!.
Qed.

(** X6. When a search that was not aborted is fulfilled and [uuidv4] does
    not repeat itself, the keys under which the slot buttons are rendered
    (the transient identifiers of the delivered slots) differ for different
    slot objects; each delivered slot keeps its id, type, status and period;
    and no resource object outside the response is touched. *)
Theorem slot_keys_distinct (p : Pane) (entries : list (BundleEntry loc)) :
  Inj (=) (=) (uuid (world p)) →
  (∀ l, mkBundleEntry (Some l) ∈ entries → is_Some (heap (world p) !! l)) →
  (∀ l1 l2,
     l1 ∈ delivered (mkBundle (Some entries)) →
     l2 ∈ delivered (mkBundle (Some entries)) → l1 ≠ l2 →
     get l1 (world (onFulfilled false (mkBundle (Some entries)) p))
     ≠ get l2 (world (onFulfilled false (mkBundle (Some entries)) p)))
  ∧ (∀ l r,
       l ∈ delivered (mkBundle (Some entries)) →
       heap (world p) !! l = Some r →
       ∃ r',
         heap (world (onFulfilled false (mkBundle (Some entries)) p)) !! l
           = Some r'
         ∧ id r' = id r ∧ resourceType r' = resourceType r
         ∧ status r' = status r
         ∧ Fhir.start r' = Fhir.start r ∧ Fhir.end_ r' = Fhir.end_ r)
  ∧ (∀ l, l ∉ delivered (mkBundle (Some entries)) →
       heap (world (onFulfilled false (mkBundle (Some entries)) p)) !! l
       = heap (world p) !! l)
  ∧ drawn (world (onFulfilled false (mkBundle (Some entries)) p))
    = drawn (world p) + length (delivered (mkBundle (Some entries))).
Proof.
  intros Hinj Halloc.
  unfold onFulfilled, delivered. cbn [entry world setSlots withWorld].
  rewrite foldl_entries_set.
  split_and!.
  - intros l1 l2 H1 H2 Hne.
    apply foldl_set_distinct; try done;
      by apply Halloc, omap_resource_elem_of.
  - intros l r _ Hr. by apply foldl_set_fields.
  - intros l Hl. by apply foldl_set_frame.
  - by destruct (foldl_set_world (omap resource entries) (world p))
      as (_ & -> & _).
Qed.

End SlotKeys.

Lemma slot_keys_distinct_witness :
  Inj (=) (=) (Store.uuid (FindPane.world Samples.pane0))
  ∧ (∀ l, Fhir.mkBundleEntry (Some l)
            ∈ [Fhir.mkBundleEntry (Some 0%nat);
               Fhir.mkBundleEntry (Some 1%nat)] →
          is_Some (Store.heap (FindPane.world Samples.pane0) !! l))
  ∧ SchedulingTransientIdentifier.get 0%nat
      (FindPane.world
         (FindPane.onFulfilled false
            (Fhir.mkBundle (Some [Fhir.mkBundleEntry (Some 0%nat);
                                  Fhir.mkBundleEntry (Some 1%nat)]))
            Samples.pane0))
    ≠ SchedulingTransientIdentifier.get 1%nat
        (FindPane.world
           (FindPane.onFulfilled false
              (Fhir.mkBundle (Some [Fhir.mkBundleEntry (Some 0%nat);
                                    Fhir.mkBundleEntry (Some 1%nat)]))
              Samples.pane0)).
Proof.
  assert (Inj (=) (=) (Store.uuid (FindPane.world Samples.pane0))) as Hinj.
  { simpl. apply _. }
  assert (∀ l, Fhir.mkBundleEntry (Some l)
                 ∈ [Fhir.mkBundleEntry (Some 0%nat);
                    Fhir.mkBundleEntry (Some 1%nat)] →
               is_Some (Store.heap (FindPane.world Samples.pane0) !! l))
    as Halloc.
  { intros l Hin.
    apply elem_of_cons in Hin as [Hin|Hin];
      [injection Hin as ->; by eexists|].
    apply elem_of_cons in Hin as [Hin|Hin];
      [injection Hin as ->; by eexists|].
    by apply elem_of_nil in Hin. }
  split; [exact Hinj|]. split; [exact Halloc|].
  apply (proj1 (slot_keys_distinct Samples.pane0 _ Hinj Halloc));
    [by left|right; by left|done].
Defined.

Section ServiceTypes.
Import Fhir Scheduling Types SchedulePageView.
#[local] Open Scope nat_scope.

Lemma serviceTypes_of_extensions (sid : string) (es : list Extension) :
  serviceTypesFromSchedulingParameters (mkSchedule sid (Some es))
  = (λ ext, getExtensionValue ext "serviceType")
      <$> filter (λ ext, url ext = SchedulingParametersURI) es.
Proof. done. Qed.

(** X7. Reading back the service types of a schedule built by the fixture
    [createScheduleWithServiceTypes] of the test suite gives the list the
    schedule was built from: as many entries, in the same order, the
    wildcard entries included. *)
Theorem serviceTypes_round_trip (serviceTypes : list (option CodeableConcept)) :
  serviceTypesFromSchedulingParameters
    (Samples.createScheduleWithServiceTypes serviceTypes) = serviceTypes.
Proof.
  unfold Samples.createScheduleWithServiceTypes.
  rewrite serviceTypes_of_extensions.
  induction serviceTypes as [|st l IH]; [done|].
  rewrite fmap_cons, filter_cons_True by done.
  rewrite fmap_cons, IH. f_equal.
  unfold getExtensionValue. by destruct st.
Qed.

(** X8. The service types of a schedule come from its SchedulingParameters
    extensions alone, one per extension and in their order: a schedule
    without extensions has none; the service types of a concatenated
    extension list are the concatenation; an extension under any other url
    contributes nothing, wherever it stands; and a SchedulingParameters
    extension without nested extensions contributes the wildcard. *)
Theorem serviceTypes_from_parameters_only (sid : string)
  (es1 es2 : list Extension) (other : Extension) :
  url other ≠ SchedulingParametersURI →
  serviceTypesFromSchedulingParameters (mkSchedule sid None) = []
  ∧ serviceTypesFromSchedulingParameters (mkSchedule sid (Some (es1 ++ es2)))
    = serviceTypesFromSchedulingParameters (mkSchedule sid (Some es1))
      ++ serviceTypesFromSchedulingParameters (mkSchedule sid (Some es2))
  ∧ serviceTypesFromSchedulingParameters
      (mkSchedule sid (Some (es1 ++ other :: es2)))
    = serviceTypesFromSchedulingParameters (mkSchedule sid (Some (es1 ++ es2)))
  ∧ serviceTypesFromSchedulingParameters
      (mkSchedule sid (Some (es1 ++ mkExtension SchedulingParametersURI None
                                      :: es2)))
    = serviceTypesFromSchedulingParameters (mkSchedule sid (Some es1))
      ++ None
         :: serviceTypesFromSchedulingParameters (mkSchedule sid (Some es2))
  ∧ length (serviceTypesFromSchedulingParameters
              (mkSchedule sid (Some es1)))
    = length (filter (λ ext, url ext = SchedulingParametersURI) es1).
Proof.
  intros Hother. rewrite !serviceTypes_of_extensions.
  split_and!.
  - done.
  - by rewrite filter_app, fmap_app.
  - rewrite !filter_app, filter_cons_False by done. done.
  - rewrite filter_app, filter_cons_True by done.
    by rewrite fmap_app, fmap_cons.
  - by rewrite length_fmap.
Qed.

Lemma serviceTypes_from_parameters_only_witness :
  Fhir.url (Fhir.mkExtension "http://example.com/other" None)
    ≠ Scheduling.SchedulingParametersURI
  ∧ Scheduling.serviceTypesFromSchedulingParameters
      (Fhir.mkSchedule "schedule-1"
         (Some ([] ++ Fhir.mkExtension "http://example.com/other" None
                   :: [Fhir.mkExtension Scheduling.SchedulingParametersURI
                         None])))
    = [None].
Proof.
  assert (Fhir.url (Fhir.mkExtension "http://example.com/other" None)
          ≠ Scheduling.SchedulingParametersURI) as Hother by done.
  split; [exact Hother|].
  destruct (serviceTypes_from_parameters_only "schedule-1" []
              [Fhir.mkExtension Scheduling.SchedulingParametersURI None]
              _ Hother) as (_ & _ & Hskip & _).
  rewrite Hskip. reflexivity.
Defined.

(** X9. The page renders the find pane exactly when a schedule and a range
    are there and the schedule carries at least one SchedulingParameters
    extension; so a pane that is rendered always offers at least one service
    type. *)
Theorem find_pane_shown_iff (schedule : option Schedule)
  (range : option Range) :
  showsFindPane schedule range = true
  ↔ is_Some range
    ∧ ∃ sch es ext,
        schedule = Some sch ∧ schedule_extension sch = Some es
        ∧ ext ∈ es ∧ url ext = SchedulingParametersURI.
Proof.
  unfold showsFindPane, serviceTypes.
  rewrite !andb_true_iff, !bool_decide_eq_true.
  split.
  - intros [[Hlen [sch ->]] Hr]. split; [done|]. simpl in Hlen.
    unfold serviceTypesFromSchedulingParameters in Hlen.
    rewrite length_fmap in Hlen.
    destruct (schedule_extension sch) as [es|] eqn:Hes; simpl in Hlen; [|done].
    destruct (filter _ es) as [|ext rest] eqn:Hf; [done|].
    assert (ext ∈ filter (λ ext, url ext = SchedulingParametersURI) es)
      as Hin by (rewrite Hf; by left).
    apply list_elem_of_filter in Hin as [Hurl Hin].
    by exists sch, es, ext.
  - intros [Hr (sch & es & ext & -> & Hes & Hin & Hurl)].
    split_and!; [|by eexists|done]. simpl.
    unfold serviceTypesFromSchedulingParameters.
    rewrite length_fmap, Hes. simpl.
    assert (ext ∈ filter (λ ext, url ext = SchedulingParametersURI) es)
      as Hin' by by apply list_elem_of_filter.
    destruct (filter _ es); [by apply elem_of_nil in Hin'|done].
Qed.

End ServiceTypes.

Section AppointmentUpdate.
Import Fhir SchedulePageView.
#[local] Open Scope nat_scope.

(** X10. [handleAppointmentUpdate] replaces, in place, every held
    appointment that has the id of the updated one and leaves all others as
    they are: the list keeps its length and order; an update for an id that
    is not held changes nothing (the appointment is not added); applying the
    same update again changes nothing more; and the open details follow the
    same rule. *)
Theorem appointment_update_in_place (updated : Resource)
  (state : option (list Resource)) (details : option Resource) :
  length (updateAppointments updated state) = length (default [] state)
  ∧ (∀ a, a ∈ updateAppointments updated state →
       id a = id updated → a = updated)
  ∧ (∀ k a, default [] state !! k = Some a → id a ≠ id updated →
       updateAppointments updated state !! k = Some a)
  ∧ (∀ k a, default [] state !! k = Some a → id a = id updated →
       updateAppointments updated state !! k = Some updated)
  ∧ ((∀ a, a ∈ default [] state → id a ≠ id updated) →
       updateAppointments updated state = default [] state)
  ∧ updateAppointments updated (Some (updateAppointments updated state))
    = updateAppointments updated state
  ∧ (∀ d, details = Some d → id d ≠ id updated →
       updateAppointmentDetails updated details = details)
  ∧ (∀ d, details = Some d → id d = id updated →
       updateAppointmentDetails updated details = Some updated).
Proof.
  unfold updateAppointments, updateAppointmentDetails.
  split_and!.
  - by rewrite length_fmap.
  - intros a Hin Hid. apply list_elem_of_fmap in Hin as (b & -> & _).
    case_decide; [done|]. congruence.
  - intros k a Hk Hid. rewrite list_lookup_fmap, Hk. simpl.
    by rewrite decide_False.
  - intros k a Hk Hid. rewrite list_lookup_fmap, Hk. simpl.
    by rewrite decide_True.
  - intros Hnone. induction (default [] state) as [|a l IH]; [done|].
    rewrite fmap_cons. rewrite decide_False by (apply Hnone; by left).
    f_equal. apply IH. intros b Hb. apply Hnone. by right.
  - simpl. rewrite <- list_fmap_compose. apply list_fmap_ext.
    intros k a _. simpl. repeat case_decide; done.
  - intros d -> Hid. simpl. by rewrite decide_False.
  - intros d -> Hid. simpl. by rewrite decide_True.
Qed.

End AppointmentUpdate.

Section BookingForm.
Import Fhir BookAppointmentForm BookAppointmentFormState.
#[local] Open Scope nat_scope.

Variable createReference : Resource → string.
Variable server : Resource → string → Outcome (Bundle Resource).
Variable slot : Resource.
Variable hasOnSuccess : bool.





(** X12. Whatever the server answers, [bookSlot] starts by raising the
    loading flag, posts once, and ends by lowering the flag. It invalidates
    the cached Appointment and Slot searches only after the server has
    answered with a bundle, and then before [onSuccess] is told; when the
    request is rejected nothing is invalidated and the error is thrown on to
    the caller. *)
Theorem bookSlot_brackets (patient : Resource) :
  head (bookSlot createReference server slot hasOnSuccess patient).1 = Some (SetLoading true)
  ∧ last (bookSlot createReference server slot hasOnSuccess patient).1
    = Some (SetLoading false)
  ∧ length (filter isPost (bookSlot createReference server slot hasOnSuccess patient).1) = 1
  ∧ match server slot (createReference patient) with
    | Returned data =>
        (bookSlot createReference server slot hasOnSuccess patient).2 = Returned tt
        ∧ ∃ told,
            (bookSlot createReference server slot hasOnSuccess patient).1
            = [SetLoading true;
               Post (fhirUrl "Appointment" "$book") slot
                 (createReference patient);
               InvalidateSearches "Appointment"; InvalidateSearches "Slot"]
              ++ told ++ [SetLoading false]
            ∧ told = (if hasOnSuccess
                      then [OnSuccess (appointments data) (slots data)]
                      else [])
    | Thrown error =>
        (bookSlot createReference server slot hasOnSuccess patient).2 = Thrown error
        ∧ ∀ resourceType,
            InvalidateSearches resourceType
            ∉ (bookSlot createReference server slot hasOnSuccess patient).1
    end.
Proof.
  unfold bookSlot, tryFinally, post, call.
  unfold mbind, Async_bind, mret, Async_ret. simpl.
  destruct (server slot (createReference patient)) as [data|error]; simpl.
  - destruct hasOnSuccess; simpl; split_and!; try done.
    + by exists [OnSuccess (appointments data) (slots data)].
    + by exists [].
  - split_and!; try done. intros rt Hin.
    repeat (apply elem_of_cons in Hin as [Hin|Hin]; [discriminate|]).
    by apply elem_of_nil in Hin.
Qed.

End BookingForm.

Section BookingReachesPage.
Import Fhir BookAppointmentForm.

(** X13. From the [$book] response to the schedule page (the form hands its
    two lists to the find pane, which hands them on unchanged): the page's
    slots afterwards are the Slot resources of the response that are not
    ['busy'] and the slots held before; its appointments are the Appointment
    resources of the response and the appointments held before. A resource
    of another type, a busy slot or an entry without a resource never
    reaches the page. *)
Theorem book_response_reaches_page (data : Bundle Resource)
  (st : SchedulePage.State) :
  (∀ r, r ∈ default [] (SchedulePage.state_slots
                          (SchedulePage.handleBookSuccess
                             (SchedulePage.mkResults (appointments data)
                                (slots data)) st))
        ↔ (r ∈ resources data ∧ resourceType r = "Slot"
           ∧ status r ≠ Some "busy")
          ∨ r ∈ default [] (SchedulePage.state_slots st))
  ∧ (∀ r, r ∈ default [] (SchedulePage.state_appointments
                            (SchedulePage.handleBookSuccess
                               (SchedulePage.mkResults (appointments data)
                                  (slots data)) st))
          ↔ (r ∈ resources data ∧ resourceType r = "Appointment")
            ∨ r ∈ default [] (SchedulePage.state_appointments st))
  ∧ (length (default [] (SchedulePage.state_slots
                           (SchedulePage.handleBookSuccess
                              (SchedulePage.mkResults (appointments data)
                                 (slots data)) st)))
     + length (default [] (SchedulePage.state_appointments
                             (SchedulePage.handleBookSuccess
                                (SchedulePage.mkResults (appointments data)
                                   (slots data)) st)))
     ≤ length (resources data)
       + length (default [] (SchedulePage.state_slots st))
       + length (default [] (SchedulePage.state_appointments st)))%nat.
Proof.
  unfold SchedulePage.handleBookSuccess; simpl.
  split_and!.
  - intros r. rewrite elem_of_app, list_elem_of_filter.
    unfold slots. rewrite list_elem_of_filter. tauto.
  - intros r. rewrite elem_of_app. unfold appointments.
    rewrite list_elem_of_filter. tauto.
  - rewrite !length_app. unfold slots, appointments.
    assert (length (filter (λ slot, status slot ≠ Some "busy")
                      (filter (λ obj, resourceType obj = "Slot")
                         (resources data)))
            + length (filter (λ obj, resourceType obj = "Appointment")
                        (resources data))
            ≤ length (resources data))%nat; [|lia].
    induction (resources data) as [|r l IH]; [done|].
    rewrite !filter_cons.
    pose proof (length_filter (λ slot, status slot ≠ Some "busy")
                  (filter (λ obj, resourceType obj = "Slot") l)).
    repeat case_decide; simpl in *; try congruence; try lia.
    + rewrite filter_cons. case_decide; simpl; lia.
Qed.

End BookingReachesPage.

Section PageFetches.
Import Fhir Types SchedulePageEffects.
#[local] Open Scope nat_scope.

Variable toISOString : Z → string.
Variable scheduleReference : Schedule → string.
Variable profileReference : Resource → string.
Variable mergeSlots : list Resource → list Resource.

#[local] Abbreviation step :=
  (pageStep toISOString scheduleReference profileReference mergeSlots).
#[local] Abbreviation run :=
  (pageRun toISOString scheduleReference profileReference mergeSlots).

Lemma cleanupEffect_inactive e :
  guarded e →
  armedFetch (cleanupEffect e) = None
  ∧ length (fetches (cleanupEffect e)) = length (fetches e)
  ∧ ∀ i f, fetches (cleanupEffect e) !! i = Some f → active f = false.
Proof.
  intros Hg. unfold cleanupEffect.
  destruct (armedFetch e) as [n|] eqn:Har; simpl.
  - split_and!; [done|by rewrite length_alter|].
    intros i f Hi. destruct (decide (n = i)) as [->|Hne].
    + rewrite list_lookup_alter_eq in Hi.
      destruct (fetches e !! i); simplify_eq/=. done.
    + rewrite list_lookup_alter_ne in Hi by done.
      destruct (active f) eqn:Hact; [|done].
      specialize (Hg i f Hi Hact). congruence.
  - split_and!; [done..|]. intros i f Hi.
    destruct (active f) eqn:Hact; [|done].
    specialize (Hg i f Hi Hact). congruence.
Qed.

Lemma cleanupEffect_guarded e : guarded e → guarded (cleanupEffect e).
Proof.
  intros Hg i f Hi Hact.
  destruct (cleanupEffect_inactive e Hg) as (_ & _ & Hin).
  specialize (Hin i f Hi). congruence.
Qed.

Lemma issueFetch_guarded q e :
  guarded e → guarded (issueFetch q (cleanupEffect e)).
Proof.
  intros Hg i f Hi Hact.
  destruct (cleanupEffect_inactive e Hg) as (_ & _ & Hin).
  unfold issueFetch in *. cbn [fetches armedFetch] in *.
  apply lookup_app_Some in Hi as [Hi|[Hge Hi]].
  - specialize (Hin i f Hi). congruence.
  - apply list_lookup_singleton_Some in Hi as [Hi _]. f_equal. lia.
Qed.

Lemma settleFetch_guarded i e isActive e' :
  guarded e → settleFetch i e = Some (isActive, e') →
  guarded e' ∧ armedFetch e' = armedFetch e
  ∧ (isActive = true → armedFetch e = Some i).
Proof.
  intros Hg. unfold settleFetch.
  destruct (fetches e !! i) as [f|] eqn:Hi; [|done].
  destruct (settled f); [done|]. intros [= <- <-].
  split_and!; [|done|intros Hact; by apply (Hg i f)].
  intros j f' Hj Hact. cbn [fetches armedFetch] in *.
  destruct (decide (i = j)) as [->|Hne].
  - rewrite list_lookup_alter_eq, Hi in Hj. simplify_eq/=.
    by apply (Hg j f).
  - rewrite list_lookup_alter_ne in Hj by done. by apply (Hg j f').
Qed.

Lemma pageStep_guarded ev p :
  guarded (slotEffect p) ∧ guarded (appointmentEffect p) →
  guarded (slotEffect (step ev p)) ∧ guarded (appointmentEffect (step ev p)).
Proof.
  intros [Hs Ha].
  destruct ev as [s|r|i a|i a|results|]; cbn [pageStep].
  - unfold runSlotEffect. cbn [slotEffect appointmentEffect schedule range].
    split; [|done].
    destruct (range p); [by apply issueFetch_guarded
                        |by apply cleanupEffect_guarded].
  - unfold runAppointmentEffect, runSlotEffect.
    cbn [slotEffect appointmentEffect schedule range profile].
    split.
    + destruct (schedule p); [by apply issueFetch_guarded
                             |by apply cleanupEffect_guarded].
    + destruct (profile p); [by apply issueFetch_guarded
                            |by apply cleanupEffect_guarded].
  - unfold slotsSettled.
    destruct (settleFetch i (slotEffect p)) as [[isActive e']|] eqn:Hset;
      [|done].
    destruct (settleFetch_guarded _ _ _ _ Hs Hset) as (Hg' & _).
    destruct isActive; [destruct a|]; done.
  - unfold appointmentsSettled.
    destruct (settleFetch i (appointmentEffect p)) as [[isActive e']|]
      eqn:Hset; [|done].
    destruct (settleFetch_guarded _ _ _ _ Ha Hset) as (Hg' & _).
    destruct isActive; [destruct a|]; done.
  - done.
  - cbn [slotEffect appointmentEffect].
    split; by apply cleanupEffect_guarded.
Qed.

Lemma pageRun_snoc evs ev p : run (evs ++ [ev]) p = step ev (run evs p).
Proof. unfold pageRun. by rewrite foldl_snoc. Qed.

Lemma pageRun_guarded evs profile :
  guarded (slotEffect (run evs (firstRender profile)))
  ∧ guarded (appointmentEffect (run evs (firstRender profile))).
Proof.
  induction evs as [|ev evs IH] using rev_ind.
  - split; by intros i f ?.
  - rewrite pageRun_snoc. by apply pageStep_guarded.
Qed.

(** X14. In every state the schedule page can reach, a response, of either
    kind and however late, to a slot search other than the one the latest
    run of the slot effect made changes neither the slots, nor the
    appointments, nor the notifications; and so does a response to an
    appointment search other than the one the latest run of the appointment
    effect made. The two effects count their searches separately: a stale
    appointment response is ignored also when the slot search with the same
    number is the current one, and the other way round. *)
Theorem page_ignores_stale_responses (profile : option Resource)
  (evs : list PageEvent) (i : nat) (a : Answer) :
  (armedFetch (slotEffect (run evs (firstRender profile))) ≠ Some i →
   collections (step (SlotsSettled i a) (run evs (firstRender profile)))
     = collections (run evs (firstRender profile))
   ∧ notifications (step (SlotsSettled i a) (run evs (firstRender profile)))
     = notifications (run evs (firstRender profile)))
  ∧ (armedFetch (appointmentEffect (run evs (firstRender profile))) ≠ Some i →
     collections
       (step (AppointmentsSettled i a) (run evs (firstRender profile)))
     = collections (run evs (firstRender profile))
     ∧ notifications
         (step (AppointmentsSettled i a) (run evs (firstRender profile)))
       = notifications (run evs (firstRender profile))).
Proof.
  destruct (pageRun_guarded evs profile) as [Hgs Hga].
  cbn [pageStep]. unfold slotsSettled, appointmentsSettled.
  split.
  - intros Hslot.
    destruct (settleFetch i (slotEffect _)) as [[isActive e']|] eqn:Hset;
      [|done].
    destruct (settleFetch_guarded _ _ _ _ Hgs Hset) as (_ & _ & Harm).
    destruct isActive; [by destruct Hslot; apply Harm|done].
  - intros Happt.
    destruct (settleFetch i (appointmentEffect _)) as [[isActive e']|]
      eqn:Hset; [|done].
    destruct (settleFetch_guarded _ _ _ _ Hga Hset) as (_ & _ & Harm).
    destruct isActive; [by destruct Happt; apply Harm|done].
Qed.

(** X15. Once the schedule is loaded, a change of range makes one slot
    search, for that schedule and range, free and busy-unavailable slots
    only; when its answer arrives before anything else happens, the slots of
    the page become the merged answer, whatever was held or booked before,
    and the appointments stay; when it fails, the error is notified and the
    collections stay. *)
Theorem page_range_change_fetches (p : Page) (s : Schedule) (r : Range)
  (raw : list Resource) (error : string) :
  schedule p = Some s →
  fetches (slotEffect (step (RangeChanged r) p))
    !! length (fetches (slotEffect p))
  = Some (mkFetch
            [("_count", "1000"); ("schedule", scheduleReference s);
             ("start", "ge" +:+ toISOString (start r));
             ("start", "le" +:+ toISOString (end_ r));
             ("status", "free,busy-unavailable")] true false)
  ∧ length (fetches (slotEffect (step (RangeChanged r) p)))
    = S (length (fetches (slotEffect p)))
  ∧ collections (step (RangeChanged r) p) = collections p
  ∧ collections
      (step (SlotsSettled (length (fetches (slotEffect p))) (Found raw))
         (step (RangeChanged r) p))
    = SchedulePage.mkState (Some (mergeSlots raw))
        (SchedulePage.state_appointments (collections p))
  ∧ collections
      (step (SlotsSettled (length (fetches (slotEffect p))) (Failed error))
         (step (RangeChanged r) p))
    = collections p
  ∧ notifications
      (step (SlotsSettled (length (fetches (slotEffect p))) (Failed error))
         (step (RangeChanged r) p))
    = notifications p ++ [error].
Proof.
  intros Hs.
  assert (length (fetches (cleanupEffect (slotEffect p)))
          = length (fetches (slotEffect p))) as Hlen.
  { unfold cleanupEffect. destruct (armedFetch (slotEffect p)); [|done].
    simpl. by rewrite length_alter. }
  assert (fetches (slotEffect (step (RangeChanged r) p))
          = fetches (cleanupEffect (slotEffect p))
            ++ [mkFetch (slotQuery toISOString scheduleReference s r)
                  true false]) as Hf.
  { cbn [pageStep]. unfold runAppointmentEffect, runSlotEffect.
    cbn [slotEffect schedule range]. by rewrite Hs. }
  assert (fetches (slotEffect (step (RangeChanged r) p))
            !! length (fetches (slotEffect p))
          = Some (mkFetch (slotQuery toISOString scheduleReference s r)
                    true false)) as Hlook.
  { rewrite Hf, lookup_app_r by lia. by rewrite Hlen, Nat.sub_diag. }
  assert (settleFetch (length (fetches (slotEffect p)))
            (slotEffect (step (RangeChanged r) p))
          = Some (true,
                  mkEffect
                    (alter (λ f, mkFetch (query f) (active f) true)
                       (length (fetches (slotEffect p)))
                       (fetches (slotEffect (step (RangeChanged r) p))))
                    (armedFetch (slotEffect (step (RangeChanged r) p)))))
    as Hset.
  { unfold settleFetch. by rewrite Hlook. }
  assert (collections (step (RangeChanged r) p) = collections p) as Hcol.
  { cbn [pageStep]. unfold runAppointmentEffect, runSlotEffect. done. }
  assert (notifications (step (RangeChanged r) p) = notifications p) as Hnot.
  { cbn [pageStep]. unfold runAppointmentEffect, runSlotEffect. done. }
  split_and!; [done| |done|..].
  - rewrite Hf, length_app, Hlen. simpl. lia.
  - remember (step (RangeChanged r) p) as q eqn:Hq. clear Hq.
    cbn [pageStep]. unfold slotsSettled. rewrite Hset.
    cbn [collections withCollections]. by rewrite Hcol.
  - remember (step (RangeChanged r) p) as q eqn:Hq. clear Hq.
    cbn [pageStep]. unfold slotsSettled. rewrite Hset.
    cbn [collections notify]. by rewrite Hcol.
  - remember (step (RangeChanged r) p) as q eqn:Hq. clear Hq.
    cbn [pageStep]. unfold slotsSettled. rewrite Hset.
    cbn [notifications notify]. by rewrite Hnot.
Qed.

End PageFetches.

Lemma page_ignores_stale_responses_witness :
  (SchedulePageEffects.armedFetch
     (SchedulePageEffects.slotEffect
        (PageSamples.run PageSamples.movedThenLoaded
           (SchedulePageEffects.firstRender (Some PageSamples.practitioner1))))
   = Some 0%nat
   ∧ SchedulePageEffects.armedFetch
       (SchedulePageEffects.appointmentEffect
          (PageSamples.run PageSamples.movedThenLoaded
             (SchedulePageEffects.firstRender
                (Some PageSamples.practitioner1))))
     = Some 1%nat
   ∧ SchedulePageEffects.collections
       (PageSamples.step
          (SchedulePageEffects.AppointmentsSettled 0
             (SchedulePageEffects.Found [PageSamples.appointment1]))
          (PageSamples.run PageSamples.movedThenLoaded
             (SchedulePageEffects.firstRender
                (Some PageSamples.practitioner1))))
     = SchedulePage.mkState None None)
  ∧ (SchedulePageEffects.armedFetch
       (SchedulePageEffects.slotEffect
          (PageSamples.run PageSamples.movedTwice
             (SchedulePageEffects.firstRender None)))
     = Some 1%nat
     ∧ SchedulePageEffects.collections
         (PageSamples.step
            (SchedulePageEffects.SlotsSettled 0
               (SchedulePageEffects.Found [Samples.slot1]))
            (PageSamples.run PageSamples.movedTwice
               (SchedulePageEffects.firstRender None)))
       = SchedulePage.mkState None None).
Proof.
  split.
  - split; [reflexivity|]. split; [reflexivity|].
    refine (proj1 (proj2 (page_ignores_stale_responses Samples.isoStub
                     PageSamples.scheduleReference
                     PageSamples.profileReference PageSamples.keepSlots
                     (Some PageSamples.practitioner1)
                     PageSamples.movedThenLoaded 0%nat
                     (SchedulePageEffects.Found [PageSamples.appointment1]))
                   _)).
    vm_compute; discriminate.
  - split; [reflexivity|].
    refine (proj1 (proj1 (page_ignores_stale_responses Samples.isoStub
                     PageSamples.scheduleReference
                     PageSamples.profileReference PageSamples.keepSlots
                     None PageSamples.movedTwice 0%nat
                     (SchedulePageEffects.Found [Samples.slot1])) _)).
    vm_compute; discriminate.
Defined.

Lemma page_range_change_fetches_witness :
  SchedulePageEffects.schedule PageSamples.loaded
    = Some PageSamples.schedule1
  ∧ SchedulePageEffects.collections
      (PageSamples.step
         (SchedulePageEffects.SlotsSettled 0
            (SchedulePageEffects.Found [Samples.slot1]))
         (PageSamples.step
            (SchedulePageEffects.RangeChanged Samples.defaultRange)
            PageSamples.loaded))
    = SchedulePage.mkState (Some [Samples.slot1]) None.
Proof.
  split; [reflexivity|].
  exact (proj1 (proj2 (proj2 (proj2
           (page_range_change_fetches Samples.isoStub
              PageSamples.scheduleReference
              PageSamples.profileReference PageSamples.keepSlots
              PageSamples.loaded PageSamples.schedule1 Samples.defaultRange
              [Samples.slot1] "" eq_refl))))).
Defined.

Section Diagnoses.
Import Fhir BillingTab.
#[local] Open Scope nat_scope.

Variable HTTP_HL7_ORG : string.

#[local] Abbreviation diagnoses := (createDiagnosisArray HTTP_HL7_ORG).

(** X16. The diagnoses of a claim follow the conditions one for one and in
    order: they are numbered 1, 2, 3, ...; the first is the principal
    diagnosis and all others are secondary; each carries at most one coding,
    always under the ICD-10 system, namely the first ICD-10-CM coding of its
    condition with the system replaced; and a condition without ICD-10-CM
    coding still takes its number, with no coding at all. *)
Theorem diagnosis_array_numbered (conditions : list Condition) :
  length (diagnoses conditions) = length conditions
  ∧ sequence <$> diagnoses conditions = seq 1 (length conditions)
  ∧ (∀ k d, diagnoses conditions !! k = Some d →
       type d = [mkCodeableConcept
                   (Some [mkCoding None
                            (Some (if decide (k = 0) then "principal"
                                   else "secondary"))]) None])
  ∧ (∀ d, d ∈ diagnoses conditions →
       ∃ cs, coding (diagnosisCodeableConcept d) = Some cs
             ∧ length cs ≤ 1
             ∧ ∀ c, c ∈ cs →
                 coding_system c = Some (HTTP_HL7_ORG +:+ "/fhir/sid/icd-10"))
  ∧ (∀ k condition,
       conditions !! k = Some condition →
       ∃ d, diagnoses conditions !! k = Some d
            ∧ coding (diagnosisCodeableConcept d)
              = Some match icd10Coding HTTP_HL7_ORG condition with
                     | Some c =>
                         [mkCoding (Some (HTTP_HL7_ORG +:+ "/fhir/sid/icd-10"))
                            (coding_code c)]
                     | None => []
                     end)
  ∧ (∀ condition c,
       icd10Coding HTTP_HL7_ORG condition = Some c →
       coding_system c = Some (HTTP_HL7_ORG +:+ "/fhir/sid/icd-10-cm")
       ∧ ∃ codings, code condition ≫= coding = Some codings ∧ c ∈ codings).
Proof.
  unfold createDiagnosisArray.
  split_and!.
  - apply length_imap.
  - apply list_eq. intros k.
    rewrite list_lookup_fmap, list_lookup_imap.
    destruct (conditions !! k) as [condition|] eqn:Hk; simpl.
    + rewrite lookup_seq_lt by by eapply lookup_lt_Some. f_equal. lia.
    + rewrite lookup_seq_ge; [done|]. by apply lookup_ge_None.
  - intros k d. rewrite list_lookup_imap.
    destruct (conditions !! k); [|done]. by intros [= <-].
  - intros d (k & condition & -> & _)%elem_of_lookup_imap_1. simpl.
    eexists. split; [done|].
    destruct (icd10Coding HTTP_HL7_ORG condition); simpl.
    + split; [lia|]. by intros c' ->%list_elem_of_singleton.
    + split; [lia|]. by intros c' ?%elem_of_nil.
  - intros k condition Hk. eexists.
    rewrite list_lookup_imap, Hk. done.
  - intros condition c. unfold icd10Coding.
    destruct (code condition ≫= coding) as [codings|]; simpl; [|done].
    destruct (list_find _ codings) as [[i c']|] eqn:Hfind; simpl; [|done].
    intros [= <-]. apply list_find_Some in Hfind as (Hi & Hsys & _).
    split; [done|]. exists codings. split; [done|].
    by eapply list_elem_of_lookup_2.
Qed.

End Diagnoses.

Section ClaimSubmission.
Import Fhir BillingTab.
#[local] Open Scope nat_scope.

(** X17. A claim is sent to the billing bot exactly when there is a claim,
    at least one condition and a billing bot, and then once; a claim without
    condition is never sent and gives the 'Missing Diagnosis' notification
    instead, whether or not a bot is there; and whenever the submitting flag
    is raised it is lowered again at the end, also when the bot fails. *)
Theorem claim_submitted_with_diagnosis (claim : option Resource)
  (conditions : list Condition) (billingBot : option string)
  (executeBot : string → Resource →
                BookAppointmentForm.Outcome (option string)) :
  (filter isExecuteBot (submitClaim claim conditions billingBot executeBot)
   = match claim, conditions, billingBot with
     | Some c, _ :: _, Some botId =>
         [ExecuteBot botId c "application/fhir+json"]
     | _, _, _ => []
     end)
  ∧ (ShowNotification "Missing Diagnosis"
       "Please add at least one diagnosis before submitting a claim" "red"
     ∈ submitClaim claim conditions billingBot executeBot
     ↔ is_Some claim ∧ conditions = [])
  ∧ (SetSubmitting true ∈ submitClaim claim conditions billingBot executeBot →
     head (submitClaim claim conditions billingBot executeBot)
       = Some (SetSubmitting true)
     ∧ last (submitClaim claim conditions billingBot executeBot)
       = Some (SetSubmitting false))
  ∧ (∀ error,
       ShowErrorNotification error
       ∈ submitClaim claim conditions billingBot executeBot →
       ∃ c botId, claim = Some c ∧ billingBot = Some botId
                  ∧ executeBot botId c = BookAppointmentForm.Thrown error).
Proof.
  unfold submitClaim.
  destruct claim as [c|]; [|split_and!; try done].
  2: { split; [by intros ?%elem_of_nil|by intros [[? ?] _]]. }
  2: { by intros ?%elem_of_nil. }
  2: { by intros ? ?%elem_of_nil. }
  destruct conditions as [|condition rest]; simpl.
  - split_and!; try done.
    + split; [by eauto|intros _; by left].
    + intros Hin. apply elem_of_cons in Hin as [?|?%elem_of_nil]; done.
    + intros error Hin.
      apply elem_of_cons in Hin as [?|?%elem_of_nil]; done.
  - destruct billingBot as [botId|]; simpl.
    + destruct (executeBot botId c) as [message|error'] eqn:Hbot; simpl;
        split_and!; try done.
      * split; [|by intros [_ ?]]. intros Hin.
        repeat (apply elem_of_cons in Hin as [Hin|Hin]; [discriminate|]).
        by apply elem_of_nil in Hin.
      * intros error Hin.
        repeat (apply elem_of_cons in Hin as [Hin|Hin]; [discriminate|]).
        by apply elem_of_nil in Hin.
      * split; [|by intros [_ ?]]. intros Hin.
        repeat (apply elem_of_cons in Hin as [Hin|Hin]; [discriminate|]).
        by apply elem_of_nil in Hin.
      * intros error Hin.
        apply elem_of_cons in Hin as [Hin|Hin]; [discriminate|].
        apply elem_of_cons in Hin as [Hin|Hin]; [discriminate|].
        apply elem_of_cons in Hin as [Hin|Hin].
        { injection Hin as ->. by exists c, botId. }
        apply elem_of_cons in Hin as [Hin|Hin]; [discriminate|].
        by apply elem_of_nil in Hin.
    + split_and!; try done.
      * split; [by intros ?%elem_of_nil|by intros [_ ?]].
      * by intros ?%elem_of_nil.
      * by intros ? ?%elem_of_nil.
Qed.

End ClaimSubmission.

Section PerformerTypes.
Import Fhir TaskFilterMenu.
#[local] Open Scope nat_scope.

Lemma imap_pair_lookup {A} (l : list A) i (ix : nat * A) :
  imap pair l !! i = Some ix → ix.1 = i ∧ l !! i = Some ix.2.
Proof.
  rewrite list_lookup_imap. destruct (l !! i); [|done].
  by intros [= <-].
Qed.

Lemma imap_pair_elem_of {A} (l : list A) (ix : nat * A) :
  ix ∈ imap pair l ↔ l !! ix.1 = Some ix.2.
Proof.
  rewrite elem_of_lookup_imap. split.
  - by intros (i & y & -> & Hi).
  - intros Hi. exists ix.1, ix.2. by destruct ix.
Qed.

Lemma imap_pair_snd {A} (l : list A) : snd <$> imap pair l = l.
Proof.
  apply list_eq. intros i. rewrite list_lookup_fmap, list_lookup_imap.
  by destruct (l !! i).
Qed.

Lemma imap_pair_NoDup {A} (l : list A) : NoDup (imap pair l).
Proof.
  apply (NoDup_fmap_1 fst).
  replace (fst <$> imap pair l) with (seq 0 (length l)); [apply NoDup_seq|].
  apply list_eq. intros i. rewrite list_lookup_fmap, list_lookup_imap.
  destruct (l !! i) eqn:Hi; simpl.
  - by rewrite lookup_seq_lt by by eapply lookup_lt_Some.
  - rewrite lookup_seq_ge; [done|]. by apply lookup_ge_None.
Qed.

Lemma sublist_fmap_snd {A B} (l1 l2 : list (A * B)) :
  sublist l1 l2 → sublist (snd <$> l1) (snd <$> l2).
Proof. induction 1; simpl; by constructor. Qed.

Lemma findIndex_Some identifier self i :
  findIndex identifier self = Some i ↔
  ∃ pt, self !! i = Some pt ∧ identifierOf pt = identifier
        ∧ ∀ j pt', self !! j = Some pt' → j < i →
                   identifierOf pt' ≠ identifier.
Proof.
  unfold findIndex. split.
  - destruct (list_find _ self) as [[k pt]|] eqn:Hfind; [|done].
    simpl. intros [= <-]. apply list_find_Some in Hfind. by exists pt.
  - intros (pt & Hi & Hid & Hleast).
    assert (list_find (λ pt, identifierOf pt = identifier) self = Some (i, pt))
      as ->; [|done].
    by apply list_find_Some.
Qed.

(** An entry is kept when its identifier is truthy and it is the first of
    the list with that identifier. *)
Lemma unique_elem_of self pt :
  pt ∈ uniquePerformerTypes (Some self) ↔
  ∃ i, self !! i = Some pt ∧ Js.truthy (identifierOf pt) = true
       ∧ findIndex (identifierOf pt) self = Some i.
Proof.
  unfold uniquePerformerTypes. rewrite list_elem_of_fmap. split.
  - intros ([i pt'] & -> & Hin). apply list_elem_of_filter in Hin as [Hk Hin].
    apply imap_pair_elem_of in Hin. simpl in *.
    unfold keeps in Hk. apply andb_prop_elim in Hk as [Ht Hf].
    apply Is_true_eq_true in Ht. apply bool_decide_unpack in Hf.
    by exists i.
  - intros (i & Hi & Ht & Hf). exists (i, pt). split; [done|].
    apply list_elem_of_filter. split; [|by apply imap_pair_elem_of].
    unfold keeps; simpl. rewrite Ht. simpl. by apply bool_decide_pack.
Qed.

(** X18. The performer types offered by the filter menu are the given ones
    without repetition: they come from the given list in its order; no two
    of them have the same identifier (the code of the first coding or, when
    that is missing or empty, the text); entries without identifier are left
    out; and every identifier of the given list is still offered, by its
    first entry. Without a list nothing is offered. *)
Theorem performer_types_unique (self : list CodeableConcept) :
  sublist (uniquePerformerTypes (Some self)) self
  ∧ NoDup (identifierOf <$> uniquePerformerTypes (Some self))
  ∧ (∀ pt, pt ∈ uniquePerformerTypes (Some self) →
       ∃ identifier, identifierOf pt = Some identifier ∧ identifier ≠ "")
  ∧ (∀ pt, pt ∈ self → Js.truthy (identifierOf pt) = true →
       ∃ first, first ∈ uniquePerformerTypes (Some self)
                ∧ identifierOf first = identifierOf pt)
  ∧ uniquePerformerTypes None = [].
Proof.
  split_and!; [| | | |done].
  - unfold uniquePerformerTypes.
    rewrite <- (imap_pair_snd self) at 2.
    apply sublist_fmap_snd, sublist_filter.
  - unfold uniquePerformerTypes. rewrite <- list_fmap_compose.
    apply NoDup_fmap_2_strong;
      [|apply NoDup_filter, imap_pair_NoDup].
    intros [i x] [j y] Hx Hy Heq. simpl in Heq.
    apply list_elem_of_filter in Hx as [Hkx Hx].
    apply list_elem_of_filter in Hy as [Hky Hy].
    apply imap_pair_elem_of in Hx, Hy. simpl in *.
    unfold keeps in *.
    apply andb_prop_elim in Hkx as [_ Hfx].
    apply andb_prop_elim in Hky as [_ Hfy].
    apply bool_decide_unpack in Hfx, Hfy. simpl in *.
    rewrite Heq in Hfx. assert (i = j) as -> by congruence.
    congruence.
  - intros pt (i & _ & Ht & _)%unique_elem_of.
    unfold Js.truthy in Ht.
    destruct (identifierOf pt) as [s|]; [|done].
    exists s. split; [done|]. by apply bool_decide_eq_true in Ht.
  - intros pt Hin Ht.
    destruct (list_find_elem_of (λ pt', identifierOf pt' = identifierOf pt)
                self pt Hin eq_refl) as [[i first] Hfind].
    pose proof Hfind as (Hi & Hid & Hleast)%list_find_Some.
    exists first. split; [|done].
    apply unique_elem_of. exists i. split_and!; [done|by rewrite Hid|].
    rewrite Hid. unfold findIndex. by rewrite Hfind.
Qed.

End PerformerTypes.

Section StatusSearch.
Import MessagesPage.
#[local] Open Scope nat_scope.

Variable EQUALS : string.

(** X19. The search built for a status link carries exactly one status
    filter, the requested one, as its last filter; it keeps every other
    filter of the current search, in order, and the resource type and count;
    it starts again at offset 0; and building it on top of a search built
    for another status gives the same as building it directly. *)
Theorem status_search_replaces_status (parsedSearch : SearchRequest)
  (value other : string) :
  filter (λ f, code f = "status")
    (default [] (filters (buildStatusSearch EQUALS parsedSearch value)))
  = [mkFilter "status" EQUALS value]
  ∧ filter (λ f, code f ≠ "status")
      (default [] (filters (buildStatusSearch EQUALS parsedSearch value)))
    = filter (λ f, code f ≠ "status") (default [] (filters parsedSearch))
  ∧ last (default [] (filters (buildStatusSearch EQUALS parsedSearch value)))
    = Some (mkFilter "status" EQUALS value)
  ∧ offset (buildStatusSearch EQUALS parsedSearch value) = Some 0
  ∧ resourceType (buildStatusSearch EQUALS parsedSearch value)
    = resourceType parsedSearch
  ∧ count (buildStatusSearch EQUALS parsedSearch value) = count parsedSearch
  ∧ buildStatusSearch EQUALS (buildStatusSearch EQUALS parsedSearch other)
      value
    = buildStatusSearch EQUALS parsedSearch value.
Proof.
  assert (∀ l : list Filter,
            filter (λ f, code f = "status") (filter (λ f, code f ≠ "status") l)
            = []) as Hnone.
  { intros l. induction l as [|f l IH]; [done|].
    rewrite (filter_cons (λ f, code f ≠ "status")).
    case_decide as Hc; [|done].
    rewrite filter_cons, decide_False by done. done. }
  assert (∀ l : list Filter,
            filter (λ f, code f ≠ "status") (filter (λ f, code f ≠ "status") l)
            = filter (λ f, code f ≠ "status") l) as Hidem.
  { intros l. induction l as [|f l IH]; [done|].
    rewrite (filter_cons (λ f, code f ≠ "status") f l).
    case_decide as Hc; [|done].
    rewrite filter_cons, decide_True by done. by rewrite IH. }
  unfold buildStatusSearch; simpl.
  split_and!; try done.
  - rewrite filter_app, Hnone. done.
  - rewrite filter_app, Hidem.
    rewrite filter_cons, decide_False by (simpl; by intros ?).
    by rewrite filter_nil, app_nil_r.
  - apply last_snoc.
  - f_equal. f_equal. f_equal.
    rewrite filter_app, Hidem.
    rewrite filter_cons, decide_False by (simpl; by intros ?).
    by rewrite filter_nil, app_nil_r.
Qed.

End StatusSearch.

Section Referrals.
Import Fhir ReferralsPage.
#[local] Open Scope nat_scope.

(** X20. The tabs of the referrals page: the Active tab lists the referrals
    whose status is active, draft or on-hold and the Completed tab those
    whose status is completed, both in the order of the search result; no
    referral is on both; and a referral with any other status (revoked,
    entered in error, unknown) or without status is listed under All only. *)
Theorem referral_tabs_partition (results : list Resource) :
  sublist (currentItems active results) results
  ∧ sublist (currentItems completed results) results
  ∧ currentItems all results = results
  ∧ (∀ r, r ∈ currentItems active results
          ↔ r ∈ results
            ∧ (status r = Some "active" ∨ status r = Some "draft"
               ∨ status r = Some "on-hold"))
  ∧ (∀ r, r ∈ currentItems completed results
          ↔ r ∈ results ∧ status r = Some "completed")
  ∧ (∀ r, r ∈ currentItems active results →
          r ∉ currentItems completed results)
  ∧ (∀ r, status r ≠ Some "active" → status r ≠ Some "draft" →
          status r ≠ Some "on-hold" → status r ≠ Some "completed" →
          (r ∉ currentItems active results)
          ∧ (r ∉ currentItems completed results))
  ∧ length (currentItems active results)
    + length (currentItems completed results) ≤ length results.
Proof.
  unfold currentItems, activeOf, completedOf.
  split_and!; try done.
  - apply sublist_filter.
  - apply sublist_filter.
  - intros r. rewrite list_elem_of_filter. tauto.
  - intros r. rewrite list_elem_of_filter. tauto.
  - intros r. rewrite !list_elem_of_filter.
    intros [[H|[H|H]] _] [Hc _]; congruence.
  - intros r H1 H2 H3 H4. rewrite !list_elem_of_filter.
    split; [intros [[?|[?|?]] _]; done|intros [? _]; done].
  - induction results as [|r l IH]; [done|].
    rewrite !filter_cons.
    repeat case_decide; simpl; try lia.
    exfalso.
    match goal with
    | Ha : _ ∨ _ ∨ _, Hc : status r = Some "completed" |- _ =>
        destruct Ha as [Ha|[Ha|Ha]]; rewrite Hc in Ha; discriminate
    end.
Qed.


End Referrals.

Section ReferralForm.
Import Fhir CreateReferralModal.

Variable defaultPatient : option Resource.
Variable hasOnCreated : bool.
Variable createReference : Resource → string.

#[local] Abbreviation submit :=
  (handleSubmit defaultPatient hasOnCreated createReference).
#[local] Abbreviation request := (serviceRequest createReference).

Lemma handleSubmit_incomplete (now : string) (answer : option string)
  (f : Form) :
  patient f = None ∨ requester f = None ∨ specialty f = None →
  submit now answer f = (f, []).
Proof.
  unfold handleSubmit.
  intros [H|[H|H]]; rewrite H; [done| |].
  - by destruct (patient f).
  - by destruct (patient f), (requester f).
Qed.

Lemma handleSubmit_complete (now : string) (answer : option string)
  (f : Form) (p r : Resource) (s : CodeableConcept) :
  patient f = Some p → requester f = Some r → specialty f = Some s →
  submit now answer f
  = match answer with
    | None =>
        (mkForm defaultPatient (Some r) None None "routine" [] "" None false,
         [CreateResource (request now f p r s);
          ShowNotification "Referral Created"
            "Successfully created new referral." "green";
          OnClose]
         ++ (if hasOnCreated then [OnCreated] else []))
    | Some error =>
        (setIsSubmitting false f,
         [CreateResource (request now f p r s); ShowErrorNotification error])
    end.
Proof.
  intros Hp Hr Hs. unfold handleSubmit. rewrite Hp, Hr, Hs.
  destruct answer; [done|].
  unfold setIsSubmitting, resetForm. simpl. by rewrite Hr.
Qed.

Lemma handleSubmit_cases (now : string) (answer : option string) (f : Form) :
  (submit now answer f = (f, [])
   ∧ (patient f = None ∨ requester f = None ∨ specialty f = None))
  ∨ ∃ p r s, patient f = Some p ∧ requester f = Some r
             ∧ specialty f = Some s.
Proof.
  destruct (patient f) as [p|] eqn:Hp;
    [|left; split; [apply handleSubmit_incomplete|]; tauto].
  destruct (requester f) as [r|] eqn:Hr;
    [|left; split; [apply handleSubmit_incomplete|]; tauto].
  destruct (specialty f) as [s|] eqn:Hs;
    [|left; split; [apply handleSubmit_incomplete|]; tauto].
  right. by exists p, r, s.
Qed.

(** X22. A request the referral form sends to the server is an active
    order for the chosen specialty, with the patient and the requester of
    the form as subject and requester; its optional fields are left out
    rather than sent empty (no empty list of reasons, no empty note, no
    empty date, no performer unless one is chosen); and it is the only
    request of that submit. *)
Theorem referral_request_well_formed (now : string) (answer : option string)
  (f : Form) (sr : ServiceRequest) :
  CreateResource sr ∈ (submit now answer f).2 →
  (∃ p r s, patient f = Some p ∧ requester f = Some r ∧ specialty f = Some s
            ∧ sr_subject sr = createReference p
            ∧ sr_requester sr = createReference r
            ∧ sr_code sr = s)
  ∧ sr_status sr = "active" ∧ sr_intent sr = "order"
  ∧ sr_priority sr = priority f
  ∧ sr_authoredOn sr = now
  ∧ sr_reasonCode sr ≠ Some []
  ∧ sr_note sr ≠ Some [""]
  ∧ sr_occurrenceDateTime sr ≠ Some ""
  ∧ (sr_performer sr = None ↔ performer f = None)
  ∧ filter isCreateResource (submit now answer f).2 = [CreateResource sr].
Proof.
  destruct (handleSubmit_cases now answer f)
    as [[-> _]|(p & r & s & Hp & Hr & Hs)]; [by intros ?%elem_of_nil|].
  rewrite (handleSubmit_complete now answer f p r s Hp Hr Hs).
  assert (sr_reasonCode (request now f p r s) ≠ Some []) as Hreason.
  { simpl. case_decide as Hlen; [|done].
    intros [= Hnil]. rewrite Hnil in Hlen. simpl in Hlen. lia. }
  assert (sr_note (request now f p r s) ≠ Some [""]) as Hnote.
  { simpl. case_decide as Hn; [|done]. by intros [= Heq]. }
  assert (sr_occurrenceDateTime (request now f p r s) ≠ Some "") as Hdate.
  { simpl. destruct (occurrenceDateTime f) as [d|]; [|done]. simpl.
    case_bool_decide as Hd; [|done]. by intros [= Heq]. }
  assert (sr_performer (request now f p r s) = None ↔ performer f = None)
    as Hperf.
  { simpl. by destruct (performer f). }
  intros Hin.
  assert (sr = request now f p r s) as ->.
  { destruct answer; simpl in Hin.
    - apply elem_of_cons in Hin as [[= ->]|Hin]; [done|].
      apply elem_of_cons in Hin as [?|?%elem_of_nil]; done.
    - apply elem_of_cons in Hin as [[= ->]|Hin]; [done|].
      apply elem_of_cons in Hin as [?|Hin]; [done|].
      apply elem_of_cons in Hin as [?|Hin]; [done|].
      destruct hasOnCreated; [|by apply elem_of_nil in Hin].
      apply elem_of_cons in Hin as [?|?%elem_of_nil]; done. }
  split_and!; try done.
  - by exists p, r, s.
  - destruct answer; [done|]. by destruct hasOnCreated.
Qed.

(** X23. When the server rejects the referral, the error is notified and
    the form keeps everything that was entered; the modal is not closed,
    [onCreated] is not called, and the form is no longer submitting. So
    the user can submit again: whatever the clock and the server's answer
    are then, the second submit sends one request, built from the same
    entries and stamped with the new time. *)
Theorem referral_failure_keeps_form (now : string) (answer : option string)
  (f : Form) (error : string) :
  ShowErrorNotification error ∈ (submit now answer f).2 →
  answer = Some error
  ∧ (submit now answer f).1 = setIsSubmitting false f
  ∧ (OnClose ∉ (submit now answer f).2)
  ∧ (OnCreated ∉ (submit now answer f).2)
  ∧ ∃ p r s,
      patient f = Some p ∧ requester f = Some r ∧ specialty f = Some s
      ∧ (submit now answer f).2
        = [CreateResource (request now f p r s); ShowErrorNotification error]
      ∧ ∀ now' answer',
          filter isCreateResource
            (submit now' answer' (submit now answer f).1).2
          = [CreateResource (request now' f p r s)].
Proof.
  destruct (handleSubmit_cases now answer f)
    as [[-> _]|(p & r & s & Hp & Hr & Hs)]; [by intros ?%elem_of_nil|].
  rewrite (handleSubmit_complete now answer f p r s Hp Hr Hs).
  destruct answer as [e|]; cbn [fst snd]; intros Hin.
  - apply elem_of_cons in Hin as [?|Hin]; [done|].
    apply elem_of_cons in Hin as [[= <-]|?%elem_of_nil]; [|done].
    split_and!; try done.
    + intros Hc. apply elem_of_cons in Hc as [?|Hc]; [done|].
      apply elem_of_cons in Hc as [?|?%elem_of_nil]; done.
    + intros Hc. apply elem_of_cons in Hc as [?|Hc]; [done|].
      apply elem_of_cons in Hc as [?|?%elem_of_nil]; done.
    + exists p, r, s. split_and!; try done.
      intros now' answer'.
      rewrite (handleSubmit_complete now' answer' (setIsSubmitting false f)
                 p r s Hp Hr Hs).
      change (request now' (setIsSubmitting false f) p r s)
        with (request now' f p r s).
      destruct answer'; [done|]. by destruct hasOnCreated.
  - exfalso.
    apply elem_of_cons in Hin as [?|Hin]; [done|].
    apply elem_of_cons in Hin as [?|Hin]; [done|].
    apply elem_of_cons in Hin as [?|Hin]; [done|].
    destruct hasOnCreated; [|by apply elem_of_nil in Hin].
    apply elem_of_cons in Hin as [?|?%elem_of_nil]; done.
Qed.

(** X24. When the referral is created, the modal is closed once and
    [onCreated] is called exactly when it was passed; the form goes back to
    the default patient, routine priority and empty fields but keeps the
    requester; and a second submit right away sends nothing, whatever the
    clock and the server, as no specialty is chosen. *)
Theorem referral_success_resets_form (now : string) (answer : option string)
  (f : Form) :
  OnClose ∈ (submit now answer f).2 →
  answer = None
  ∧ (submit now answer f).1
    = mkForm defaultPatient (requester f) None None "routine" [] "" None false
  ∧ (∃ sr, (submit now answer f).2
           = [CreateResource sr;
              ShowNotification "Referral Created"
                "Successfully created new referral." "green";
              OnClose]
             ++ (if hasOnCreated then [OnCreated] else []))
  ∧ (∀ error, ShowErrorNotification error ∉ (submit now answer f).2)
  ∧ ∀ now' answer',
      submit now' answer' (submit now answer f).1
      = ((submit now answer f).1, []).
Proof.
  destruct (handleSubmit_cases now answer f)
    as [[-> _]|(p & r & s & Hp & Hr & Hs)]; [by intros ?%elem_of_nil|].
  rewrite (handleSubmit_complete now answer f p r s Hp Hr Hs).
  destruct answer as [e|]; cbn [fst snd]; intros Hin.
  - exfalso.
    apply elem_of_cons in Hin as [?|Hin]; [done|].
    apply elem_of_cons in Hin as [?|?%elem_of_nil]; done.
  - split_and!; [done|by rewrite Hr|by eexists| |].
    + intros error Herr.
      apply elem_of_cons in Herr as [?|Herr]; [done|].
      apply elem_of_cons in Herr as [?|Herr]; [done|].
      apply elem_of_cons in Herr as [?|Herr]; [done|].
      destruct hasOnCreated; [|by apply elem_of_nil in Herr].
      apply elem_of_cons in Herr as [?|?%elem_of_nil]; done.
    + intros now' answer'. apply handleSubmit_incomplete. simpl. tauto.
Qed.

End ReferralForm.

Lemma referral_request_well_formed_witness :
  CreateReferralModal.CreateResource
    (CreateReferralModal.serviceRequest ReferralSamples.referenceOf
       "2024-01-15T09:00:00.000Z"
       ReferralSamples.filled ReferralSamples.patient1
       ReferralSamples.practitioner1 ReferralSamples.cardiology)
    ∈ (CreateReferralModal.handleSubmit None true ReferralSamples.referenceOf
         "2024-01-15T09:00:00.000Z" None ReferralSamples.filled).2
  ∧ CreateReferralModal.sr_note
      (CreateReferralModal.serviceRequest ReferralSamples.referenceOf
         "2024-01-15T09:00:00.000Z"
         ReferralSamples.filled ReferralSamples.patient1
         ReferralSamples.practitioner1 ReferralSamples.cardiology)
    ≠ Some [""].
Proof.
  assert (CreateReferralModal.CreateResource
            (CreateReferralModal.serviceRequest ReferralSamples.referenceOf
               "2024-01-15T09:00:00.000Z"
               ReferralSamples.filled ReferralSamples.patient1
               ReferralSamples.practitioner1 ReferralSamples.cardiology)
            ∈ (CreateReferralModal.handleSubmit None true
                 ReferralSamples.referenceOf "2024-01-15T09:00:00.000Z" None
                 ReferralSamples.filled).2) as Hin.
  { vm_compute. apply list_elem_of_here. }
  split; [exact Hin|].
  exact (proj1 (proj2 (proj2 (proj2 (proj2 (proj2 (proj2
           (referral_request_well_formed None true
              ReferralSamples.referenceOf "2024-01-15T09:00:00.000Z" None
              ReferralSamples.filled _ Hin)))))))).
Defined.

Lemma referral_failure_keeps_form_witness :
  CreateReferralModal.ShowErrorNotification "Network error"
    ∈ (CreateReferralModal.handleSubmit None true ReferralSamples.referenceOf
         "2024-01-15T09:00:00.000Z" (Some "Network error")
         ReferralSamples.filled).2
  ∧ (CreateReferralModal.handleSubmit None true ReferralSamples.referenceOf
       "2024-01-15T09:00:00.000Z" (Some "Network error")
       ReferralSamples.filled).1
    = ReferralSamples.filled.
Proof.
  assert (CreateReferralModal.ShowErrorNotification "Network error"
            ∈ (CreateReferralModal.handleSubmit None true
                 ReferralSamples.referenceOf "2024-01-15T09:00:00.000Z"
                 (Some "Network error") ReferralSamples.filled).2) as Hin.
  { vm_compute. apply list_elem_of_further, list_elem_of_here. }
  split; [exact Hin|].
  exact (proj1 (proj2 (referral_failure_keeps_form None true
                         ReferralSamples.referenceOf
                         "2024-01-15T09:00:00.000Z" (Some "Network error")
                         ReferralSamples.filled "Network error" Hin))).
Defined.

Lemma referral_success_resets_form_witness :
  CreateReferralModal.OnClose
    ∈ (CreateReferralModal.handleSubmit None true ReferralSamples.referenceOf
         "2024-01-15T09:00:00.000Z" None ReferralSamples.filled).2
  ∧ (CreateReferralModal.handleSubmit None true ReferralSamples.referenceOf
       "2024-01-15T09:00:00.000Z" None ReferralSamples.filled).1
    = CreateReferralModal.mkForm None (Some ReferralSamples.practitioner1)
        None None "routine" [] "" None false.
Proof.
  assert (CreateReferralModal.OnClose
            ∈ (CreateReferralModal.handleSubmit None true
                 ReferralSamples.referenceOf "2024-01-15T09:00:00.000Z" None
                 ReferralSamples.filled).2) as Hin.
  { vm_compute.
    apply list_elem_of_further, list_elem_of_further, list_elem_of_here. }
  split; [exact Hin|].
  exact (proj1 (proj2 (referral_success_resets_form None true
                         ReferralSamples.referenceOf
                         "2024-01-15T09:00:00.000Z" None
                         ReferralSamples.filled Hin))).
Defined.
